(** * Keystore V4 decryption (package cryptor): a shallow embedding

    The development follows [Decrypt] and [decryptNorm] of the decryptor
    and the record types of cryptor.go.  Library calls whose results the
    code only branches on are modelled concretely ([hex.DecodeString],
    [bytes.Equal], [cipher.NewCTR], [XORKeyStream], the decoding half of
    [encoding/json]); the cryptographic primitives and the two passphrase
    normalisers are the fields of the class [Primitives], so every theorem
    holds for whatever functions are plugged in. *)

From Stdlib Require Import ZArith List Bool Lia.
From Stdlib Require Import Strings.String Strings.Ascii Strings.Byte.
Import ListNotations.

Local Open Scope Z_scope.

(** ** Bytes *)

Definition bytes := list byte.

Definition byte_to_Z (b : byte) : Z := Z.of_N (Byte.to_N b).

(** Conversion [byte(z)] of Go: the low eight bits. *)
Definition byte_of_Z (z : Z) : byte :=
  byte_of_ascii (ascii_of_N (Z.to_N (z mod 256))).

Definition byte_xor (a b : byte) : byte :=
  byte_of_Z (Z.lxor (byte_to_Z a) (byte_to_Z b)).

(** [[]byte(s)] for a Go string [s]. *)
Definition bytes_of_string (s : string) : bytes := list_byte_of_string s.

(** [bytes.Equal]. *)
Fixpoint bytes_Equal (a b : bytes) : bool :=
  match a, b with
  | [], [] => true
  | x :: a', y :: b' => Byte.eqb x y && bytes_Equal a' b'
  | _, _ => false
  end.

(** The slice expression [b[lo:hi]] for [lo <= hi <= len(b)]. *)
Definition slice (lo hi : nat) (b : bytes) : bytes :=
  firstn (hi - lo) (skipn lo b).

(** ** encoding/hex *)

(** [reverseHexTable]: the value of a hexadecimal digit of either case. *)
Definition fromHexChar (c : ascii) : option Z :=
  let n := Z.of_N (N_of_ascii c) in
  if (48 <=? n) && (n <=? 57) then Some (n - 48)
  else if (97 <=? n) && (n <=? 102) then Some (n - 97 + 10)
  else if (65 <=? n) && (n <=? 70) then Some (n - 65 + 10)
  else None.

(** [hex.DecodeString]; [None] stands for a non-nil error, which is either
    [InvalidByteError] or [ErrLength] (odd length).  The callers only test
    the error against nil. *)
Fixpoint hex_DecodeString (s : string) : option bytes :=
  match s with
  | EmptyString => Some []
  | String _ EmptyString => None
  | String p (String q rest) =>
      match fromHexChar p, fromHexChar q with
      | Some a, Some b =>
          match hex_DecodeString rest with
          | Some r => Some (byte_of_Z (Z.lor (Z.shiftl a 4) b) :: r)
          | None => None
          end
      | _, _ => None
      end
  end.

(** [hextable = "0123456789abcdef"]. *)
Definition hexdigit (n : Z) : ascii :=
  if n <? 10 then ascii_of_N (Z.to_N (48 + n)) else ascii_of_N (Z.to_N (87 + n)).

(** [hex.EncodeToString]. *)
Fixpoint hex_EncodeToString (b : bytes) : string :=
  match b with
  | [] => EmptyString
  | x :: r =>
      String (hexdigit (Z.shiftr (byte_to_Z x) 4))
        (String (hexdigit (Z.land (byte_to_Z x) 15)) (hex_EncodeToString r))
  end.

(** ** Errors and outcomes *)

(** The errors [Decrypt] can return, named after the failure they report;
    the Go message is given with each. *)
Inductive error : Type :=
| NoData                              (* "no data supplied" *)
| MalformedRecord                     (* "failed to parse keystore" *)
| MissingChecksum                     (* "no checksum" *)
| MissingCipher                       (* "no cipher" *)
| InvalidKDFSalt                      (* "invalid KDF salt" *)
| UnsupportedPRF (name : string)      (* "unsupported PBKDF2 PRF %q" *)
| UnsupportedKDF (name : string)      (* "unsupported KDF %q" *)
| InvalidKDFParameters                (* "invalid KDF parameters" *)
| DerivedKeyTooShort                  (* "decryption key must be at least 32 bytes" *)
| InvalidCipherMessage                (* "invalid cipher message" *)
| InvalidChecksumEncoding             (* "invalid checksum message" *)
| ChecksumMismatch                    (* "invalid checksum" *)
| InvalidIV                           (* "invalid IV" *)
| UnsupportedCipher (name : string)   (* "unsupported cipher %q" *)
| AESKeySizeError (n : nat).          (* aes.KeySizeError, from aes.NewCipher *)

(** Run-time panics the code can raise instead of returning. *)
Inductive panic : Type :=
| NilDereference       (* field access through a nil pointer *)
| IVLength             (* "cipher.NewCTR: IV length must equal block size" *)
| OutputTooSmall       (* "crypto/cipher: output smaller than input" *)
| LibraryPanic.        (* a panic inside scrypt.Key or pbkdf2.Key *)

(** What a call of [Decrypt] or [decryptNorm] does: return a value with a
    nil error, return a non-nil error, or panic. *)
Inductive outcome (A : Type) : Type :=
| Ok (a : A)
| Err (e : error)
| Panic (p : panic).
Arguments Ok {A} a.
Arguments Err {A} e.
Arguments Panic {A} p.

Definition bind {A B : Type} (m : outcome A) (k : A -> outcome B) : outcome B :=
  match m with
  | Ok a => k a
  | Err e => Err e
  | Panic p => Panic p
  end.

Notation "x <- m ;; k" := (bind m (fun x => k))
  (at level 61, m at next level, right associativity).

(** Reading a field through a pointer. *)
Definition deref {A : Type} (p : option A) : outcome A :=
  match p with
  | Some a => Ok a
  | None => Panic NilDereference
  end.

(** A decoded hex field, or the error the caller reports for it. *)
Definition decode_or (e : error) (s : string) : outcome bytes :=
  match hex_DecodeString s with
  | Some b => Ok b
  | None => Err e
  end.

(** A library call that can panic. *)
Inductive call (A : Type) : Type :=
| Returns (a : A)
| Panics.
Arguments Returns {A} a.
Arguments Panics {A}.

(** ** JSON values *)

#[local] Set Warnings "-register-all".

(** The JSON image of a Go value held in a [map[string]interface{}].
    Objects list their members in the order [json.Marshal] writes them
    (sorted by key).  A number is kept by the shape of its literal, which is
    all that decoding into an [int] looks at.  A string is the string the
    decoder reads back (the encoder puts U+FFFD for bytes that are not valid
    UTF-8). *)
Inductive value : Type :=
| VNull
| VBool (b : bool)
| VInt (z : Z)          (* a number whose literal is the integer [z] *)
| VFrac                 (* a number whose literal has a fraction or an exponent *)
| VStr (s : string)
| VArr (l : list value)
| VObj (l : list (string * value))
| VUnsupported.         (* a value json.Marshal rejects: a channel, a func, NaN *)

Definition object := list (string * value).

(** ** The keystore record (cryptor.go) *)

Module ksKDFParams.
Record t : Type := mk {
  Salt : string;
  DKLen : Z;
  N : Z;
  P : Z;
  R : Z;
  C : Z;
  PRF : string
}.
Definition zero : t := mk EmptyString 0 0 0 0 0 EmptyString.
End ksKDFParams.

Module ksKDF.
Record t : Type := mk {
  Function : string;
  Params : option ksKDFParams.t;
  Message : string
}.
Definition zero : t := mk EmptyString None EmptyString.
End ksKDF.

Module ksChecksum.
Record t : Type := mk {
  Function : string;
  Params : option object;
  Message : string
}.
Definition zero : t := mk EmptyString None EmptyString.
End ksChecksum.

Module ksCipherParams.
Record t : Type := mk {
  IV : string
}.
Definition zero : t := mk EmptyString.
End ksCipherParams.

Module ksCipher.
Record t : Type := mk {
  Function : string;
  Params : option ksCipherParams.t;
  Message : string
}.
Definition zero : t := mk EmptyString None EmptyString.
End ksCipher.

Module keystoreV4.
Record t : Type := mk {
  KDF : option ksKDF.t;
  Checksum : option ksChecksum.t;
  Cipher : option ksCipher.t
}.
Definition zero : t := mk None None None.
End keystoreV4.

(** ** encoding/json, as [Decrypt] uses it *)

(** [json.Marshal] fails on a value it cannot encode, at any depth. *)
Fixpoint marshalable (v : value) : bool :=
  match v with
  | VUnsupported => false
  | VArr l => forallb marshalable l
  | VObj l => forallb (fun kv => marshalable (snd kv)) l
  | _ => true
  end.

(** [json.Marshal(data)]: the document, or [None] for an error. *)
Definition json_Marshal (data : object) : option object :=
  if marshalable (VObj data) then Some data else None.

(** Key matching of the decoder: a member sets the field whose tag equals
    its key up to the case of ASCII letters (the two letters outside ASCII
    that Go folds onto "k" and "s" are left out); other members are
    skipped. *)
Definition lower_ascii (c : ascii) : ascii :=
  let n := N_of_ascii c in
  if (65 <=? n)%N && (n <=? 90)%N then ascii_of_N (n + 32) else c.

Fixpoint lower (s : string) : string :=
  match s with
  | EmptyString => EmptyString
  | String c r => String (lower_ascii c) (lower r)
  end.

Definition names (key tag : string) : bool := String.eqb (lower key) tag.

(** A Go [int] is 64 bits wide. *)
Definition fits_int (z : Z) : bool := (- 2 ^ 63 <=? z) && (z <? 2 ^ 63).

(** Decoding a member into a field: [null] leaves a string or an int as it
    is; a value of the wrong JSON type, or an integer out of range, is an
    [UnmarshalTypeError] ([None]). *)
Definition set_string (v : value) (old : string) : option string :=
  match v with
  | VNull => Some old
  | VStr s => Some s
  | _ => None
  end.

Definition set_int (v : value) (old : Z) : option Z :=
  match v with
  | VNull => Some old
  | VInt z => if fits_int z then Some z else None
  | _ => None
  end.

(** The members of an object, decoded in order into a struct. *)
Fixpoint decode_members {S : Type} (setf : string -> value -> S -> option S)
    (l : object) (s : S) : option S :=
  match l with
  | [] => Some s
  | (k, v) :: r =>
      match setf k v s with
      | Some s' => decode_members setf r s'
      | None => None
      end
  end.

(** A pointer-to-struct field: [null] sets it to nil; an object is decoded
    into the struct it points to, allocated when the pointer is nil. *)
Definition set_ptr {S : Type} (zero : S) (setf : string -> value -> S -> option S)
    (v : value) (old : option S) : option (option S) :=
  match v with
  | VNull => Some None
  | VObj l =>
      match decode_members setf l (match old with Some s => s | None => zero end) with
      | Some s => Some (Some s)
      | None => None
      end
  | _ => None
  end.

(** A [map[string]interface{}] field: the members are stored under their
    keys in the map already there. *)
Definition map_store (m : object) (kv : string * value) : object :=
  kv :: filter (fun e => negb (String.eqb (fst e) (fst kv))) m.

Definition set_map (v : value) (old : option object) : option (option object) :=
  match v with
  | VNull => Some None
  | VObj l => Some (Some (fold_left map_store l (match old with Some m => m | None => [] end)))
  | _ => None
  end.

Definition set_ksKDFParams (k : string) (v : value) (s : ksKDFParams.t)
  : option ksKDFParams.t :=
  let '(ksKDFParams.mk salt dklen n p r c prf) := s in
  if names k "salt" then
    option_map (fun x => ksKDFParams.mk x dklen n p r c prf) (set_string v salt)
  else if names k "dklen" then
    option_map (fun x => ksKDFParams.mk salt x n p r c prf) (set_int v dklen)
  else if names k "n" then
    option_map (fun x => ksKDFParams.mk salt dklen x p r c prf) (set_int v n)
  else if names k "p" then
    option_map (fun x => ksKDFParams.mk salt dklen n x r c prf) (set_int v p)
  else if names k "r" then
    option_map (fun x => ksKDFParams.mk salt dklen n p x c prf) (set_int v r)
  else if names k "c" then
    option_map (fun x => ksKDFParams.mk salt dklen n p r x prf) (set_int v c)
  else if names k "prf" then
    option_map (fun x => ksKDFParams.mk salt dklen n p r c x) (set_string v prf)
  else Some s.

Definition set_ksKDF (k : string) (v : value) (s : ksKDF.t) : option ksKDF.t :=
  let '(ksKDF.mk fn params msg) := s in
  if names k "function" then
    option_map (fun x => ksKDF.mk x params msg) (set_string v fn)
  else if names k "params" then
    option_map (fun x => ksKDF.mk fn x msg)
      (set_ptr ksKDFParams.zero set_ksKDFParams v params)
  else if names k "message" then
    option_map (fun x => ksKDF.mk fn params x) (set_string v msg)
  else Some s.

Definition set_ksChecksum (k : string) (v : value) (s : ksChecksum.t)
  : option ksChecksum.t :=
  let '(ksChecksum.mk fn params msg) := s in
  if names k "function" then
    option_map (fun x => ksChecksum.mk x params msg) (set_string v fn)
  else if names k "params" then
    option_map (fun x => ksChecksum.mk fn x msg) (set_map v params)
  else if names k "message" then
    option_map (fun x => ksChecksum.mk fn params x) (set_string v msg)
  else Some s.

Definition set_ksCipherParams (k : string) (v : value) (s : ksCipherParams.t)
  : option ksCipherParams.t :=
  if names k "iv" then
    option_map ksCipherParams.mk (set_string v (ksCipherParams.IV s))
  else Some s.

Definition set_ksCipher (k : string) (v : value) (s : ksCipher.t) : option ksCipher.t :=
  let '(ksCipher.mk fn params msg) := s in
  if names k "function" then
    option_map (fun x => ksCipher.mk x params msg) (set_string v fn)
  else if names k "params" then
    option_map (fun x => ksCipher.mk fn x msg)
      (set_ptr ksCipherParams.zero set_ksCipherParams v params)
  else if names k "message" then
    option_map (fun x => ksCipher.mk fn params x) (set_string v msg)
  else Some s.

Definition set_keystoreV4 (k : string) (v : value) (s : keystoreV4.t)
  : option keystoreV4.t :=
  let '(keystoreV4.mk kdf checksum cipher) := s in
  if names k "kdf" then
    option_map (fun x => keystoreV4.mk x checksum cipher)
      (set_ptr ksKDF.zero set_ksKDF v kdf)
  else if names k "checksum" then
    option_map (fun x => keystoreV4.mk kdf x cipher)
      (set_ptr ksChecksum.zero set_ksChecksum v checksum)
  else if names k "cipher" then
    option_map (fun x => keystoreV4.mk kdf checksum x)
      (set_ptr ksCipher.zero set_ksCipher v cipher)
  else Some s.

(** [json.Unmarshal(b, &ks)] with [ks := &keystoreV4{}]; [None] for an
    error. *)
Definition json_Unmarshal (b : object) : option keystoreV4.t :=
  decode_members set_keystoreV4 b keystoreV4.zero.

(** ** crypto/cipher: counter mode over a 128-bit block *)

(** A block is a 128-bit integer, written to and read from memory big
    end first. *)
Definition be_Z (b : bytes) : Z :=
  fold_left (fun acc x => acc * 256 + byte_to_Z x) b 0.

Fixpoint be_bytes (n : nat) (z : Z) : bytes :=
  match n with
  | O => []
  | S m => be_bytes m (z / 256) ++ [byte_of_Z z]
  end.

Definition BlockSize : nat := 16.

(** The stream of [cipher.NewCTR]: the block encryption and the counter. *)
Record ctr : Type := mkctr {
  ctr_block : Z -> Z;
  ctr_counter : Z
}.

(** [cipher.NewCTR(block, iv)]. *)
Definition cipher_NewCTR (block : Z -> Z) (iv : bytes) : outcome ctr :=
  if (List.length iv =? BlockSize)%nat then Ok (mkctr block (be_Z iv))
  else Panic IVLength.

(** [n] blocks of key stream: the encryptions of the counter, which is
    incremented as a 128-bit big-endian number and wraps. *)
Fixpoint keystream (block : Z -> Z) (n : nat) (counter : Z) : bytes :=
  match n with
  | O => []
  | S m =>
      be_bytes BlockSize (block counter)
        ++ keystream block m ((counter + 1) mod 2 ^ 128)
  end.

Fixpoint xor_bytes (src ks : bytes) : bytes :=
  match src, ks with
  | x :: src', k :: ks' => byte_xor x k :: xor_bytes src' ks'
  | _, _ => []
  end.

(** [stream.XORKeyStream(dst, src)]: the contents of [dst] afterwards. *)
Definition XORKeyStream (s : ctr) (dst src : bytes) : outcome bytes :=
  if (List.length dst <? List.length src)%nat then Panic OutputTooSmall
  else
    let n := ((List.length src + (BlockSize - 1)) / BlockSize)%nat in
    Ok (xor_bytes src (keystream (ctr_block s) n (ctr_counter s))
          ++ skipn (List.length src) dst).

(** [make([]byte, n)]. *)
Definition make (n : nat) : bytes := repeat Byte.x00 n.

(** ** The primitives *)

(** The functions [Decrypt] calls and this development leaves open: the two
    passphrase normalisers of the package, and the digest, the two key
    derivation functions and the block cipher of the crypto libraries.
    [scrypt_Key] returns [None] for a non-nil error. *)
Class Primitives : Type := {
  normPassphrase : string -> string;
  altNormPassphrase : string -> string;
  sha256_Sum : bytes -> bytes;
  scrypt_Key : bytes -> bytes -> Z -> Z -> Z -> Z -> call (option bytes);
  pbkdf2_Key_sha256 : bytes -> bytes -> Z -> Z -> call bytes;
  aes_encrypt : bytes -> Z -> Z
}.

Section Decryptor.

Context {prim : Primitives}.

(** [aes.NewCipher(key)]: the block encryption under [key], or
    [aes.KeySizeError]. *)
Definition aes_NewCipher (key : bytes) : outcome (Z -> Z) :=
  match List.length key with
  | 16%nat | 24%nat | 32%nat => Ok (aes_encrypt key)
  | n => Err (AESKeySizeError n)
  end.

(** Lines 61-86 of [decryptNorm]: the decryption key. *)
Definition decryptionKey (ks : keystoreV4.t) (normedPassphrase : bytes)
  : outcome bytes :=
  match keystoreV4.KDF ks with
  | None => Ok normedPassphrase
  | Some kdf =>
      kdfParams <- deref (ksKDF.Params kdf) ;;
      salt <- decode_or InvalidKDFSalt (ksKDFParams.Salt kdfParams) ;;
      if String.eqb (ksKDF.Function kdf) "scrypt" then
        match scrypt_Key normedPassphrase salt (ksKDFParams.N kdfParams)
                (ksKDFParams.R kdfParams) (ksKDFParams.P kdfParams)
                (ksKDFParams.DKLen kdfParams) with
        | Returns (Some key) => Ok key
        | Returns None => Err InvalidKDFParameters
        | Panics => Panic LibraryPanic
        end
      else if String.eqb (ksKDF.Function kdf) "pbkdf2" then
        if String.eqb (ksKDFParams.PRF kdfParams) "hmac-sha256" then
          match pbkdf2_Key_sha256 normedPassphrase salt (ksKDFParams.C kdfParams)
                  (ksKDFParams.DKLen kdfParams) with
          | Returns key => Ok key
          | Panics => Panic LibraryPanic
          end
        else Err (UnsupportedPRF (ksKDFParams.PRF kdfParams))
      else Err (UnsupportedKDF (ksKDF.Function kdf))
  end.

(** Lines 113-130 of [decryptNorm]: the cipher dispatch. *)
Definition decipher (cipher : ksCipher.t) (key cipherMsg : bytes) : outcome bytes :=
  let res := make (List.length cipherMsg) in
  if String.eqb (ksCipher.Function cipher) "aes-128-ctr" then
    aesCipher <- aes_NewCipher (firstn 16 key) ;;
    params <- deref (ksCipher.Params cipher) ;;
    iv <- decode_or InvalidIV (ksCipherParams.IV params) ;;
    stream <- cipher_NewCTR aesCipher iv ;;
    XORKeyStream stream res cipherMsg
  else Err (UnsupportedCipher (ksCipher.Function cipher)).

Definition decryptNorm (ks : keystoreV4.t) (normedPassphrase : bytes)
  : outcome bytes :=
  key <- decryptionKey ks normedPassphrase ;;
  if (List.length key <? 32)%nat then Err DerivedKeyTooShort
  else
    cipher <- deref (keystoreV4.Cipher ks) ;;
    cipherMsg <- decode_or InvalidCipherMessage (ksCipher.Message cipher) ;;
    let checksum := sha256_Sum (slice 16 32 key ++ cipherMsg) in
    cs <- deref (keystoreV4.Checksum ks) ;;
    checksumMsg <- decode_or InvalidChecksumEncoding (ksChecksum.Message cs) ;;
    if negb (bytes_Equal checksum checksumMsg) then Err ChecksumMismatch
    else decipher cipher key cipherMsg.

(** [Decrypt]; [data = None] is the nil map. *)
Definition Decrypt (data : option object) (passphrase : string) : outcome bytes :=
  match data with
  | None => Err NoData
  | Some d =>
      match json_Marshal d with
      | None => Err MalformedRecord
      | Some b =>
          match json_Unmarshal b with
          | None => Err MalformedRecord
          | Some ks =>
              match keystoreV4.Checksum ks with
              | None => Err MissingChecksum
              | Some _ =>
                  match keystoreV4.Cipher ks with
                  | None => Err MissingCipher
                  | Some _ =>
                      match decryptNorm ks (bytes_of_string (normPassphrase passphrase)) with
                      | Err _ =>
                          match decryptNorm ks
                                  (bytes_of_string (altNormPassphrase passphrase)) with
                          | Err err => Err err
                          | Ok res => Ok res
                          | Panic p => Panic p
                          end
                      | Ok res => Ok res
                      | Panic p => Panic p
                      end
                  end
              end
          end
      end
  end.

End Decryptor.

(** ** Observations on a run of [decryptNorm] *)

Section Observations.

Context {prim : Primitives}.

(** The run reaches the comparison of line 108 with the key [key], the
    decoded ciphertext [cipherMsg] and the decoded stored checksum
    [checksumMsg]. *)
Definition at_checksum (ks : keystoreV4.t) (normedPassphrase key : bytes)
    (cipher : ksCipher.t) (cipherMsg checksumMsg : bytes) : Prop :=
  decryptionKey ks normedPassphrase = Ok key /\
  (32 <= List.length key)%nat /\
  keystoreV4.Cipher ks = Some cipher /\
  hex_DecodeString (ksCipher.Message cipher) = Some cipherMsg /\
  (exists cs, keystoreV4.Checksum ks = Some cs /\
              hex_DecodeString (ksChecksum.Message cs) = Some checksumMsg).

(** The digest the verifier computes. *)
Definition digest (key cipherMsg : bytes) : bytes :=
  sha256_Sum (slice 16 32 key ++ cipherMsg).

(** The checksum of the record verifies under [normedPassphrase]. *)
Definition verified (ks : keystoreV4.t) (normedPassphrase : bytes) : bool :=
  match decryptionKey ks normedPassphrase,
        keystoreV4.Cipher ks, keystoreV4.Checksum ks with
  | Ok key, Some cipher, Some cs =>
      match hex_DecodeString (ksCipher.Message cipher),
            hex_DecodeString (ksChecksum.Message cs) with
      | Some cipherMsg, Some checksumMsg =>
          (32 <=? List.length key)%nat
            && bytes_Equal (digest key cipherMsg) checksumMsg
      | _, _ => false
      end
  | _, _, _ => false
  end.

(** The record [data] is re-encoded and decoded into [ks] (lines 23-31). *)
Definition parses_to (data : object) (ks : keystoreV4.t) : Prop :=
  exists b, json_Marshal data = Some b /\ json_Unmarshal b = Some ks.

(** Counter-mode decryption as the format describes it: the ciphertext
    xored with the encryptions of IV, IV+1, ... under [key]. *)
Definition ctr_decrypt (key iv cipherMsg : bytes) : bytes :=
  xor_bytes cipherMsg
    (keystream (aes_encrypt key)
       ((List.length cipherMsg + (BlockSize - 1)) / BlockSize)%nat (be_Z iv)).

(** A record without [kdf] whose checksum is the digest of [key] and
    [cipherMsg]. *)
Definition sealed (key : bytes) (function : string)
    (params : option ksCipherParams.t) (cipherMsg : bytes) : keystoreV4.t :=
  keystoreV4.mk None
    (Some (ksChecksum.mk "sha256" None (hex_EncodeToString (digest key cipherMsg))))
    (Some (ksCipher.mk function params (hex_EncodeToString cipherMsg))).

End Observations.

(** ** Sample primitives and records *)

(** Stand-ins for the primitives, used to run the model on concrete
    records.  They have the interface of the real functions and none of
    their strength. *)
Definition is_control (c : ascii) : bool :=
  let n := N_of_ascii c in ((n <? 32) || (n =? 127))%N.

Fixpoint strip_controls (s : string) : string :=
  match s with
  | EmptyString => EmptyString
  | String c r => if is_control c then strip_controls r else String c (strip_controls r)
  end.

Definition sample_primitives : Primitives := {|
  normPassphrase := strip_controls;
  altNormPassphrase := fun s => s;
  sha256_Sum := fun m => be_bytes 32 (be_Z m * 31 + 7);
  scrypt_Key := fun pass salt n r p dklen =>
    if p =? 0 then Panics
    else if n <=? 1 then Returns None
    else Returns (Some (be_bytes (Z.to_nat dklen) (be_Z (pass ++ salt) + n)));
  pbkdf2_Key_sha256 := fun pass salt c dklen =>
    if dklen <? 0 then Panics
    else Returns (be_bytes (Z.to_nat dklen) (be_Z (salt ++ pass) + c));
  aes_encrypt := fun key block => Z.lxor block (be_Z key)
|}.

(** A 32-character passphrase, and one whose last character is a tab. *)
Definition pass32 : string := "0123456789abcdef0123456789abcdef".
Definition pass31_tab : string :=
  String.append "0123456789abcdef0123456789abcde" (String (ascii_of_N 9) "").

Definition member_checksum (message : string) : string * value :=
  ("checksum"%string,
   VObj [("function"%string, VStr "sha256"); ("message"%string, VStr message);
         ("params"%string, VObj [])]).

Definition member_cipher (function : string) (params : value) (message : string)
  : string * value :=
  ("cipher"%string,
   VObj [("function"%string, VStr function); ("message"%string, VStr message);
         ("params"%string, params)]).

Definition params_iv (iv : string) : value := VObj [("iv"%string, VStr iv)].

(** The checksum a record without [kdf] carries under the sample digest. *)
Definition sample_checksum (key : string) (cipherMsg : string) : string :=
  match hex_DecodeString cipherMsg with
  | Some m => hex_EncodeToString
                (@digest sample_primitives (bytes_of_string key) m)
  | None => EmptyString
  end.

(** A record without [kdf], with the checksum of [pass32] over the
    ciphertext deadbeef under the sample digest. *)
Definition data_sealed (function : string) (params : value) : object :=
  [member_checksum (sample_checksum pass32 "deadbeef");
   member_cipher function params "deadbeef"].

Definition iv16 : string := "000102030405060708090a0b0c0d0e0f".

(** Records whose [kdf] has no [params] member, or a null one. *)
Definition data_kdf_without_params : object :=
  [member_checksum ""; member_cipher "aes-128-ctr" (params_iv iv16) "";
   ("kdf"%string,
    VObj [("function"%string, VStr "scrypt"); ("message"%string, VStr "")])].

Definition data_kdf_null_params : object :=
  [member_checksum ""; member_cipher "aes-128-ctr" (params_iv iv16) "";
   ("kdf"%string,
    VObj [("function"%string, VStr "scrypt"); ("message"%string, VStr "");
          ("params"%string, VNull)])].

(** A record whose [kdf] names the function [function] and has the salt
    [salt] and the PRF [prf]. *)
Definition data_kdf (function salt prf : string) : object :=
  [member_checksum ""; member_cipher "aes-128-ctr" (params_iv iv16) "";
   ("kdf"%string,
    VObj [("function"%string, VStr function); ("message"%string, VStr "");
          ("params"%string,
           VObj [("c"%string, VInt 262144); ("dklen"%string, VInt 32);
                 ("prf"%string, VStr prf); ("salt"%string, VStr salt)])])].

(** What the records above decode to. *)
Definition ks_of (data : object) : keystoreV4.t :=
  match json_Unmarshal data with
  | Some ks => ks
  | None => keystoreV4.zero
  end.

(** The sealed sample record with the supported cipher, its cipher
    sub-record, its ciphertext and its stored checksum, decoded. *)
Definition ks_sealed : keystoreV4.t :=
  ks_of (data_sealed "aes-128-ctr" (params_iv iv16)).

Definition cipher_of (ks : keystoreV4.t) : ksCipher.t :=
  match keystoreV4.Cipher ks with
  | Some c => c
  | None => ksCipher.zero
  end.

Definition deadbeef : bytes := [Byte.xde; Byte.xad; Byte.xbe; Byte.xef].

Definition checksum_sealed : bytes :=
  @digest sample_primitives (bytes_of_string pass32) deadbeef.

(** ** cryptor.go: the constructor and its options *)

Module options.
Record t : Type := mk {
  cipher : string;
  costPower : Z          (* uint: 0 <= costPower < 2^64 *)
}.
End options.

(** A function on a pointer to [options]: the struct the pointer refers
    to, after the call. *)
Definition optionFunc : Type := options.t -> options.t.

(** An [Option] is nil or holds an [optionFunc]; [apply] on the nil
    interface panics. *)
Module Option.
Inductive t : Type :=
| nil
| func (f : optionFunc).

Definition apply (op : t) (opt : options.t) : call options.t :=
  match op with
  | nil => Panics
  | func f => Returns (f opt)
  end.
End Option.

Definition WithCipher (cipher : string) : Option.t :=
  Option.func (fun opt => options.mk cipher (options.costPower opt)).

(** [*testing.T]: only its being nil or not is looked at. *)
Inductive testing_T : Type := a_test.

Definition WithCost (t : option testing_T) (costPower : Z) : call Option.t :=
  match t with
  | None => Panics
  | Some _ => Returns (Option.func (fun o => options.mk (options.cipher o) costPower))
  end.

Module Cryptor.
Record t : Type := mk {
  cipher : string;
  cost : Z               (* int: 64 bits, two's complement *)
}.
End Cryptor.

(** The value of a 64-bit [int] after wrap-around. *)
Definition wrap_int (z : Z) : Z := (z + 2 ^ 63) mod 2 ^ 64 - 2 ^ 63.

(** The loop of [NewCryptor]: every option applied in turn. *)
Fixpoint apply_all (opts : list Option.t) (opt : options.t) : call options.t :=
  match opts with
  | [] => Returns opt
  | op :: rest =>
      match Option.apply op opt with
      | Returns opt' => apply_all rest opt'
      | Panics => Panics
      end
  end.

Definition NewCryptor (opts : list Option.t) : call Cryptor.t :=
  match apply_all opts (options.mk "pbkdf2" 18) with
  | Returns defaultOpt =>
      Returns (Cryptor.mk (options.cipher defaultOpt)
                 (wrap_int (Z.shiftl 1 (options.costPower defaultOpt))))
  | Panics => Panics
  end.

Definition name : string := "keystore".
Definition version : Z := 4.

Definition Name (c : Cryptor.t) : string := name.
Definition Version (c : Cryptor.t) : Z := version.

(** ** Records derived from a record *)

(** ASCII upper case, for the hex fields. *)
Definition upper_ascii (c : ascii) : ascii :=
  let n := N_of_ascii c in
  if (97 <=? n)%N && (n <=? 122)%N then ascii_of_N (n - 32) else c.

Fixpoint upper (s : string) : string :=
  match s with
  | EmptyString => EmptyString
  | String c r => String (upper_ascii c) (upper r)
  end.

(** The record with [f] applied to its four hex fields: the salt, the
    stored checksum, the ciphertext and the IV. *)
Definition map_hex (f : string -> string) (ks : keystoreV4.t) : keystoreV4.t :=
  keystoreV4.mk
    (option_map
       (fun kdf =>
          ksKDF.mk (ksKDF.Function kdf)
            (option_map
               (fun kp =>
                  ksKDFParams.mk (f (ksKDFParams.Salt kp)) (ksKDFParams.DKLen kp)
                    (ksKDFParams.N kp) (ksKDFParams.P kp) (ksKDFParams.R kp)
                    (ksKDFParams.C kp) (ksKDFParams.PRF kp))
               (ksKDF.Params kdf))
            (ksKDF.Message kdf))
       (keystoreV4.KDF ks))
    (option_map
       (fun cs =>
          ksChecksum.mk (ksChecksum.Function cs) (ksChecksum.Params cs)
            (f (ksChecksum.Message cs)))
       (keystoreV4.Checksum ks))
    (option_map
       (fun c =>
          ksCipher.mk (ksCipher.Function c)
            (option_map (fun q => ksCipherParams.mk (f (ksCipherParams.IV q)))
               (ksCipher.Params c))
            (f (ksCipher.Message c)))
       (keystoreV4.Cipher ks)).

(** The record with other values in the fields [decryptNorm] does not
    read: the message of the KDF, and the function and the parameters of the
    checksum. *)
Definition relabel (kdfMessage checksumFunction : string)
    (checksumParams : option object) (ks : keystoreV4.t) : keystoreV4.t :=
  keystoreV4.mk
    (option_map
       (fun kdf => ksKDF.mk (ksKDF.Function kdf) (ksKDF.Params kdf) kdfMessage)
       (keystoreV4.KDF ks))
    (option_map
       (fun cs => ksChecksum.mk checksumFunction checksumParams
                    (ksChecksum.Message cs))
       (keystoreV4.Checksum ks))
    (keystoreV4.Cipher ks).

(** Every pointer [decryptNorm] reads through is set: the checksum and the
    cipher, the parameters of the cipher, and the parameters of the KDF when
    there is one. *)
Definition pointers_set (ks : keystoreV4.t) : bool :=
  match keystoreV4.KDF ks with
  | Some kdf => match ksKDF.Params kdf with Some _ => true | None => false end
  | None => true
  end
  && match keystoreV4.Checksum ks with Some _ => true | None => false end
  && match keystoreV4.Cipher ks with
     | Some c => match ksCipher.Params c with Some _ => true | None => false end
     | None => false
     end.

(** The IV of the record, when it decodes, is one block long. *)
Definition iv_one_block (ks : keystoreV4.t) : bool :=
  match keystoreV4.Cipher ks with
  | Some c =>
      match ksCipher.Params c with
      | Some q =>
          match hex_DecodeString (ksCipherParams.IV q) with
          | Some iv => (List.length iv =? BlockSize)%nat
          | None => true
          end
      | None => true
      end
  | None => true
  end.

Section Errors.

Context {prim : Primitives}.

(** The errors [decryptNorm] can return on the record [ks]. *)
Definition errors_of (ks : keystoreV4.t) : list error :=
  [InvalidKDFSalt; InvalidKDFParameters; DerivedKeyTooShort;
   InvalidCipherMessage; InvalidChecksumEncoding; ChecksumMismatch; InvalidIV]
  ++ match keystoreV4.KDF ks with
     | Some kdf =>
         UnsupportedKDF (ksKDF.Function kdf)
         :: match ksKDF.Params kdf with
            | Some kp => [UnsupportedPRF (ksKDFParams.PRF kp)]
            | None => []
            end
     | None => []
     end
  ++ match keystoreV4.Cipher ks with
     | Some c => [UnsupportedCipher (ksCipher.Function c)]
     | None => []
     end.

End Errors.

(** The characters [hex.DecodeString] accepts, and the strings made of
    them. *)
Definition hex_digits : string := "0123456789abcdefABCDEF".

Fixpoint occurs (c : ascii) (alphabet : string) : bool :=
  match alphabet with
  | EmptyString => false
  | String a rest => Ascii.eqb c a || occurs c rest
  end.

Fixpoint all_hex (s : string) : bool :=
  match s with
  | EmptyString => true
  | String c rest => occurs c hex_digits && all_hex rest
  end.

(** * Properties *)

(** ** Bytes and hex *)

Lemma bytes_Equal_eq (a b : bytes) : bytes_Equal a b = true <-> a = b.
Proof.
  revert b. induction a as [|x a IH]; intros [|y b]; simpl; split;
    try congruence; try reflexivity.
  - intros H. apply andb_true_iff in H as [Hx Hab].
    apply Byte.byte_dec_bl in Hx. apply IH in Hab. congruence.
  - intros H. injection H as -> ->. apply andb_true_iff. split.
    + now apply Byte.byte_dec_lb.
    + now apply IH.
Qed.

Lemma bytes_Equal_neq (a b : bytes) : bytes_Equal a b = false <-> a <> b.
Proof.
  rewrite <- bytes_Equal_eq. destruct (bytes_Equal a b); split; congruence.
Qed.

Lemma hex_decode_pair (x : byte) (rest : string) :
  hex_DecodeString
    (String (hexdigit (Z.shiftr (byte_to_Z x) 4))
       (String (hexdigit (Z.land (byte_to_Z x) 15)) rest))
  = match hex_DecodeString rest with
    | Some r => Some (x :: r)
    | None => None
    end.
Proof. destruct x; reflexivity. Qed.

(** Decoding undoes encoding, whatever the bytes. *)
Lemma hex_decode_encode (b : bytes) :
  hex_DecodeString (hex_EncodeToString b) = Some b.
Proof.
  induction b as [|x b IH]; [reflexivity|].
  cbn [hex_EncodeToString]. rewrite hex_decode_pair, IH. reflexivity.
Qed.

Lemma slice_length (lo hi : nat) (b : bytes) :
  (hi <= List.length b)%nat -> List.length (slice lo hi b) = (hi - lo)%nat.
Proof.
  intros H. unfold slice. rewrite length_firstn, length_skipn. lia.
Qed.

Lemma slice_nth (lo hi i : nat) (b : bytes) :
  (i < hi - lo)%nat -> nth_error (slice lo hi b) i = nth_error b (lo + i).
Proof.
  intros H. unfold slice.
  rewrite nth_error_firstn.
  destruct (Nat.ltb_spec i (hi - lo)); [|lia].
  apply nth_error_skipn.
Qed.

(** ** Counter mode *)

Lemma be_bytes_length (n : nat) (z : Z) : List.length (be_bytes n z) = n.
Proof.
  revert z. induction n as [|n IH]; intros z; cbn [be_bytes]; [reflexivity|].
  rewrite length_app, IH. cbn [List.length]. lia.
Qed.

Lemma keystream_length (block : Z -> Z) (n : nat) (counter : Z) :
  List.length (keystream block n counter) = (n * BlockSize)%nat.
Proof.
  revert counter. induction n as [|n IH]; intros counter; cbn [keystream];
    [reflexivity|].
  rewrite length_app, be_bytes_length, IH. lia.
Qed.

Lemma xor_bytes_length (src ks : bytes) :
  (List.length src <= List.length ks)%nat ->
  List.length (xor_bytes src ks) = List.length src.
Proof.
  revert ks. induction src as [|x src IH]; intros [|k ks] H; simpl in *;
    try reflexivity; try lia.
  f_equal. apply IH. lia.
Qed.

Lemma blocks_cover (n : nat) :
  (n <= (n + (BlockSize - 1)) / BlockSize * BlockSize)%nat.
Proof.
  unfold BlockSize.
  pose proof (Nat.div_mod_eq (n + (16 - 1)) 16) as E.
  pose proof (Nat.mod_upper_bound (n + (16 - 1)) 16) as U.
  lia.
Qed.

Lemma skipn_make (n : nat) : skipn n (make n) = [].
Proof.
  apply skipn_all2. unfold make. rewrite repeat_length. lia.
Qed.

Section Properties.

Context {prim : Primitives}.

Lemma ctr_decrypt_length (key iv cipherMsg : bytes) :
  List.length (ctr_decrypt key iv cipherMsg) = List.length cipherMsg.
Proof.
  unfold ctr_decrypt. apply xor_bytes_length.
  rewrite keystream_length. apply blocks_cover.
Qed.

(** [XORKeyStream] into a fresh buffer of the ciphertext's length. *)
Lemma XORKeyStream_fresh (block : Z -> Z) (counter : Z) (src : bytes) :
  XORKeyStream (mkctr block counter) (make (List.length src)) src
  = Ok (xor_bytes src
          (keystream block ((List.length src + (BlockSize - 1)) / BlockSize)%nat
             counter)).
Proof.
  unfold XORKeyStream.
  assert (L : List.length (make (List.length src)) = List.length src)
    by (unfold make; apply repeat_length).
  rewrite L, Nat.ltb_irrefl, skipn_make, app_nil_r. reflexivity.
Qed.

(** ** The stages of [decryptNorm] *)

(** With the key derived and long enough, and both messages decoded, the
    run is decided by the comparison of line 108. *)
Lemma decryptNorm_at_checksum ks pass key cipher cipherMsg checksumMsg :
  at_checksum ks pass key cipher cipherMsg checksumMsg ->
  decryptNorm ks pass
  = if bytes_Equal (digest key cipherMsg) checksumMsg
    then decipher cipher key cipherMsg
    else Err ChecksumMismatch.
Proof.
  intros (Hk & Hlen & Hc & Hm & cs & Hcs & Hs).
  unfold decryptNorm, decode_or, digest. rewrite Hk. cbn [bind].
  destruct (Nat.ltb_spec (List.length key) 32); [lia|].
  rewrite Hc. cbn [deref bind]. rewrite Hm. cbn [bind].
  rewrite Hcs. cbn [deref bind]. rewrite Hs. cbn [bind].
  destruct (bytes_Equal _ _); reflexivity.
Qed.

(** A run that returns a plaintext went through every stage. *)
Lemma decryptNorm_Ok_inv ks pass res :
  decryptNorm ks pass = Ok res ->
  exists key cipher cipherMsg checksumMsg,
    at_checksum ks pass key cipher cipherMsg checksumMsg /\
    digest key cipherMsg = checksumMsg /\
    decipher cipher key cipherMsg = Ok res.
Proof.
  unfold decryptNorm, decode_or.
  destruct (decryptionKey ks pass) as [key| |] eqn:Hk; cbn [bind];
    try discriminate.
  destruct (Nat.ltb_spec (List.length key) 32) as [|Hlen]; try discriminate.
  destruct (keystoreV4.Cipher ks) as [cipher|] eqn:Hc; cbn [deref bind];
    try discriminate.
  destruct (hex_DecodeString (ksCipher.Message cipher)) as [cipherMsg|] eqn:Hm;
    cbn [bind]; try discriminate.
  destruct (keystoreV4.Checksum ks) as [cs|] eqn:Hcs; cbn [deref bind];
    try discriminate.
  destruct (hex_DecodeString (ksChecksum.Message cs)) as [checksumMsg|] eqn:Hs;
    cbn [bind]; try discriminate.
  destruct (bytes_Equal _ _) eqn:E; cbn [negb]; try discriminate.
  intros Hres. exists key, cipher, cipherMsg, checksumMsg.
  split; [|split; [now apply bytes_Equal_eq | assumption]].
  unfold at_checksum. repeat (split; [assumption|]).
  exists cs. split; assumption.
Qed.

Lemma verified_at_checksum ks pass :
  verified ks pass = true <->
  exists key cipher cipherMsg checksumMsg,
    at_checksum ks pass key cipher cipherMsg checksumMsg /\
    digest key cipherMsg = checksumMsg.
Proof.
  unfold verified. split.
  - destruct (decryptionKey ks pass) as [key| |] eqn:Hk; try discriminate.
    destruct (keystoreV4.Cipher ks) as [cipher|] eqn:Hc; try discriminate.
    destruct (keystoreV4.Checksum ks) as [cs|] eqn:Hcs; try discriminate.
    destruct (hex_DecodeString (ksCipher.Message cipher)) as [cipherMsg|] eqn:Hm;
      try discriminate.
    destruct (hex_DecodeString (ksChecksum.Message cs)) as [checksumMsg|] eqn:Hs;
      try discriminate.
    intros Hv. apply andb_true_iff in Hv as [Hl He].
    apply Nat.leb_le in Hl. apply bytes_Equal_eq in He.
    exists key, cipher, cipherMsg, checksumMsg.
    split; [|assumption].
    unfold at_checksum. repeat (split; [assumption|]).
    exists cs. split; assumption.
  - intros (key & cipher & cipherMsg & checksumMsg
            & (Hk & Hlen & Hc & Hm & cs & Hcs & Hs) & Hd).
    rewrite Hk, Hc, Hcs, Hm, Hs. apply andb_true_iff. split.
    + now apply Nat.leb_le.
    + now apply bytes_Equal_eq.
Qed.

(** ** The two attempts of [Decrypt] *)

(** Past the parser, [Decrypt] is the first attempt unless that returns an
    error, and the second attempt otherwise. *)
Lemma Decrypt_parsed data passphrase ks :
  parses_to data ks ->
  keystoreV4.Checksum ks <> None ->
  keystoreV4.Cipher ks <> None ->
  Decrypt (Some data) passphrase
  = match decryptNorm ks (bytes_of_string (normPassphrase passphrase)) with
    | Err _ => decryptNorm ks (bytes_of_string (altNormPassphrase passphrase))
    | r => r
    end.
Proof.
  intros (b & Hm & Hu) Hcs Hc. unfold Decrypt. rewrite Hm, Hu.
  destruct (keystoreV4.Checksum ks); [|congruence].
  destruct (keystoreV4.Cipher ks); [|congruence].
  destruct (decryptNorm ks (bytes_of_string (normPassphrase passphrase)));
    try reflexivity.
  destruct (decryptNorm ks (bytes_of_string (altNormPassphrase passphrase)));
    reflexivity.
Qed.

End Properties.

Section Stages.

Context {prim : Primitives}.

(** The key depends on the [kdf] field of the record alone. *)
Lemma decryptionKey_kdf_only ks checksum cipher pass :
  decryptionKey (keystoreV4.mk (keystoreV4.KDF ks) checksum cipher) pass
  = decryptionKey ks pass.
Proof. reflexivity. Qed.

(** An error of the key derivation is the error of the run. *)
Lemma decryptNorm_key_error ks pass e :
  decryptionKey ks pass = Err e -> decryptNorm ks pass = Err e.
Proof. intros H. unfold decryptNorm. rewrite H. reflexivity. Qed.

(** A panic of the key derivation is the panic of the run. *)
Lemma decryptNorm_key_panic ks pass p :
  decryptionKey ks pass = Panic p -> decryptNorm ks pass = Panic p.
Proof. intros H. unfold decryptNorm. rewrite H. reflexivity. Qed.

(** The length check of line 89 comes right after the derivation. *)
Lemma decryptNorm_short_key ks pass key :
  decryptionKey ks pass = Ok key ->
  (List.length key < 32)%nat ->
  decryptNorm ks pass = Err DerivedKeyTooShort.
Proof.
  intros H L. unfold decryptNorm. rewrite H. cbn [bind].
  destruct (Nat.ltb_spec (List.length key) 32); [reflexivity | lia].
Qed.

(** [aes.NewCipher] fails with a key size error only. *)
Lemma aes_NewCipher_not_mismatch key :
  aes_NewCipher key <> Err ChecksumMismatch.
Proof.
  unfold aes_NewCipher. generalize (List.length key) as n. intros n.
  do 33 (destruct n as [|n]; [discriminate|]). discriminate.
Qed.

(** The cipher dispatch has its own errors; a checksum mismatch is not
    among them. *)
Lemma decipher_not_mismatch cipher key cipherMsg :
  decipher cipher key cipherMsg <> Err ChecksumMismatch.
Proof.
  unfold decipher, decode_or, cipher_NewCTR, XORKeyStream.
  destruct (String.eqb _ _); [|discriminate].
  destruct (aes_NewCipher (firstn 16 key)) as [block|e|p] eqn:E; cbn [bind];
    [| intros H; injection H as ->; now apply aes_NewCipher_not_mismatch in E
     | discriminate].
  destruct (ksCipher.Params cipher) as [q|]; cbn [deref bind]; [|discriminate].
  destruct (hex_DecodeString (ksCipherParams.IV q)); cbn [bind]; [|discriminate].
  destruct (List.length _ =? BlockSize)%nat; cbn [bind ctr_block ctr_counter];
    [|discriminate].
  destruct (_ <? _)%nat; discriminate.
Qed.

(** With a key of at least 32 bytes the AES key is 16 bytes long and
    [aes.NewCipher] succeeds. *)
Lemma aes_NewCipher_first16 key :
  (32 <= List.length key)%nat ->
  aes_NewCipher (firstn 16 key) = Ok (aes_encrypt (firstn 16 key)).
Proof.
  intros H. unfold aes_NewCipher.
  replace (List.length (firstn 16 key)) with 16%nat; [reflexivity|].
  rewrite length_firstn. lia.
Qed.

End Stages.

Section Dispatch.

Context {prim : Primitives}.

(** The key derivation with the parameters there and the salt decoded:
    the dispatch on the function name. *)
Lemma decryptionKey_dispatch ks pass kdf kp salt :
  keystoreV4.KDF ks = Some kdf ->
  ksKDF.Params kdf = Some kp ->
  hex_DecodeString (ksKDFParams.Salt kp) = Some salt ->
  decryptionKey ks pass
  = if String.eqb (ksKDF.Function kdf) "scrypt" then
      match scrypt_Key pass salt (ksKDFParams.N kp) (ksKDFParams.R kp)
              (ksKDFParams.P kp) (ksKDFParams.DKLen kp) with
      | Returns (Some key) => Ok key
      | Returns None => Err InvalidKDFParameters
      | Panics => Panic LibraryPanic
      end
    else if String.eqb (ksKDF.Function kdf) "pbkdf2" then
      if String.eqb (ksKDFParams.PRF kp) "hmac-sha256" then
        match pbkdf2_Key_sha256 pass salt (ksKDFParams.C kp)
                (ksKDFParams.DKLen kp) with
        | Returns key => Ok key
        | Panics => Panic LibraryPanic
        end
      else Err (UnsupportedPRF (ksKDFParams.PRF kp))
    else Err (UnsupportedKDF (ksKDF.Function kdf)).
Proof.
  intros Hk Hp Hs. unfold decryptionKey, decode_or.
  rewrite Hk, Hp. cbn [deref bind]. rewrite Hs. reflexivity.
Qed.

(** A record whose [kdf] has no parameters: line 66 reads the salt through
    a nil pointer. *)
Lemma decryptionKey_nil_params ks pass kdf :
  keystoreV4.KDF ks = Some kdf ->
  ksKDF.Params kdf = None ->
  decryptionKey ks pass = Panic NilDereference.
Proof.
  intros Hk Hp. unfold decryptionKey. rewrite Hk, Hp. reflexivity.
Qed.

(** The cipher dispatch for "aes-128-ctr" with a key of at least 32
    bytes. *)
Lemma decipher_aes cipher key cipherMsg :
  (32 <= List.length key)%nat ->
  ksCipher.Function cipher = "aes-128-ctr"%string ->
  decipher cipher key cipherMsg
  = match ksCipher.Params cipher with
    | None => Panic NilDereference
    | Some params =>
        match hex_DecodeString (ksCipherParams.IV params) with
        | None => Err InvalidIV
        | Some iv =>
            if (List.length iv =? BlockSize)%nat
            then Ok (ctr_decrypt (firstn 16 key) iv cipherMsg)
            else Panic IVLength
        end
    end.
Proof.
  intros Hlen Hf. unfold decipher, decode_or, cipher_NewCTR.
  rewrite Hf, String.eqb_refl, (aes_NewCipher_first16 key Hlen). cbn [bind].
  destruct (ksCipher.Params cipher) as [params|]; cbn [deref bind];
    [|reflexivity].
  destruct (hex_DecodeString (ksCipherParams.IV params)) as [iv|]; cbn [bind];
    [|reflexivity].
  destruct (List.length iv =? BlockSize)%nat; cbn [bind]; [|reflexivity].
  rewrite XORKeyStream_fresh. reflexivity.
Qed.

Lemma decipher_unsupported cipher key cipherMsg :
  ksCipher.Function cipher <> "aes-128-ctr"%string ->
  decipher cipher key cipherMsg = Err (UnsupportedCipher (ksCipher.Function cipher)).
Proof.
  intros H. unfold decipher.
  destruct (String.eqb_spec (ksCipher.Function cipher) "aes-128-ctr");
    [contradiction | reflexivity].
Qed.

(** The derivation never reports an invalid IV. *)
Lemma decryptionKey_not_InvalidIV ks pass :
  decryptionKey ks pass <> Err InvalidIV.
Proof.
  unfold decryptionKey, decode_or.
  destruct (keystoreV4.KDF ks) as [kdf|]; [|discriminate].
  destruct (ksKDF.Params kdf) as [kp|]; cbn [deref bind]; [|discriminate].
  destruct (hex_DecodeString (ksKDFParams.Salt kp)); cbn [bind]; [|discriminate].
  destruct (String.eqb _ "scrypt").
  - destruct (scrypt_Key _ _ _ _ _ _) as [[k|]|]; discriminate.
  - destruct (String.eqb _ "pbkdf2"); [|discriminate].
    destruct (String.eqb _ "hmac-sha256"); [|discriminate].
    destruct (pbkdf2_Key_sha256 _ _ _ _); discriminate.
Qed.

(** An error of the cipher dispatch under a long enough key: InvalidIV
    comes from the hex decoding of the IV and from nowhere else. *)
Lemma decipher_InvalidIV_inv cipher key cipherMsg :
  (32 <= List.length key)%nat ->
  decipher cipher key cipherMsg = Err InvalidIV ->
  exists params,
    ksCipher.Params cipher = Some params /\
    hex_DecodeString (ksCipherParams.IV params) = None.
Proof.
  intros Hlen. unfold decipher, decode_or, cipher_NewCTR, XORKeyStream.
  destruct (String.eqb _ _); [|discriminate].
  rewrite (aes_NewCipher_first16 key Hlen). cbn [bind].
  destruct (ksCipher.Params cipher) as [params|]; cbn [deref bind];
    [|discriminate].
  destruct (hex_DecodeString (ksCipherParams.IV params)) as [iv|] eqn:Hiv;
    cbn [bind].
  - destruct (List.length iv =? BlockSize)%nat; cbn [bind]; [|discriminate].
    destruct (_ <? _)%nat; discriminate.
  - intros _. now exists params.
Qed.

(** The sealed record reaches the comparison with its own digest. *)
Lemma sealed_at_checksum key function params cipherMsg :
  (32 <= List.length key)%nat ->
  at_checksum (sealed key function params cipherMsg) key key
    (ksCipher.mk function params (hex_EncodeToString cipherMsg))
    cipherMsg (digest key cipherMsg).
Proof.
  intros H. unfold at_checksum, sealed. cbn.
  repeat (split; [first [assumption | reflexivity | apply hex_decode_encode]|]).
  eexists. split; [reflexivity|]. apply hex_decode_encode.
Qed.

Lemma sealed_run key function params cipherMsg :
  (32 <= List.length key)%nat ->
  decryptNorm (sealed key function params cipherMsg) key
  = decipher (ksCipher.mk function params (hex_EncodeToString cipherMsg))
      key cipherMsg.
Proof.
  intros H.
  rewrite (decryptNorm_at_checksum _ _ _ _ _ _
             (sealed_at_checksum key function params cipherMsg H)).
  replace (bytes_Equal (digest key cipherMsg) (digest key cipherMsg)) with true;
    [reflexivity|].
  symmetry. now apply bytes_Equal_eq.
Qed.

Lemma sealed_verified key function params cipherMsg :
  (32 <= List.length key)%nat ->
  verified (sealed key function params cipherMsg) key = true.
Proof.
  intros H. apply verified_at_checksum.
  exists key, (ksCipher.mk function params (hex_EncodeToString cipherMsg)),
    cipherMsg, (digest key cipherMsg).
  split; [now apply sealed_at_checksum | reflexivity].
Qed.

(** Whatever the digest function is, a record without [kdf] that carries
    the right checksum and names a cipher other than "aes-128-ctr" is
    refused. *)
Lemma sealed_unsupported_cipher key function cipherMsg :
  (32 <= List.length key)%nat ->
  function <> "aes-128-ctr"%string ->
  verified (sealed key function None cipherMsg) key = true /\
  decryptNorm (sealed key function None cipherMsg) key
  = Err (UnsupportedCipher function).
Proof.
  intros H F. split; [now apply sealed_verified|].
  rewrite (sealed_run _ _ _ _ H). now apply decipher_unsupported.
Qed.

(** A panic of the first attempt is a panic of [Decrypt]. *)
Lemma Decrypt_first_panic data passphrase ks p :
  parses_to data ks ->
  keystoreV4.Checksum ks <> None ->
  keystoreV4.Cipher ks <> None ->
  decryptNorm ks (bytes_of_string (normPassphrase passphrase)) = Panic p ->
  Decrypt (Some data) passphrase = Panic p.
Proof.
  intros Hp Hcs Hc H.
  rewrite (Decrypt_parsed data passphrase ks Hp Hcs Hc), H. reflexivity.
Qed.

(** An error that both attempts return is the error of [Decrypt]. *)
Lemma Decrypt_both_fail data passphrase ks e :
  parses_to data ks ->
  keystoreV4.Checksum ks <> None ->
  keystoreV4.Cipher ks <> None ->
  (forall pass, decryptNorm ks pass = Err e) ->
  Decrypt (Some data) passphrase = Err e.
Proof.
  intros Hp Hcs Hc H.
  rewrite (Decrypt_parsed data passphrase ks Hp Hcs Hc), !H. reflexivity.
Qed.

(** A plaintext out of [Decrypt] is the plaintext of one of the two
    attempts on the parsed record. *)
Lemma Decrypt_Ok_inv data passphrase res :
  Decrypt (Some data) passphrase = Ok res ->
  exists ks,
    parses_to data ks /\
    (decryptNorm ks (bytes_of_string (normPassphrase passphrase)) = Ok res \/
     decryptNorm ks (bytes_of_string (altNormPassphrase passphrase)) = Ok res).
Proof.
  unfold Decrypt.
  destruct (json_Marshal data) as [b|] eqn:Hm; [|discriminate].
  destruct (json_Unmarshal b) as [ks|] eqn:Hu; [|discriminate].
  destruct (keystoreV4.Checksum ks); [|discriminate].
  destruct (keystoreV4.Cipher ks); [|discriminate].
  intros H. exists ks. split; [now exists b|].
  destruct (decryptNorm ks (bytes_of_string (normPassphrase passphrase)))
    as [r1|e1|p1]; [left; exact H | | discriminate].
  destruct (decryptNorm ks (bytes_of_string (altNormPassphrase passphrase)))
    as [r2|e2|p2]; [right; exact H | discriminate | discriminate].
Qed.

End Dispatch.

(** * The claims *)

Section Claims.

Context {prim : Primitives}.

(** C1: for a parsed record (checksum and cipher present) and a passphrase,
    when the pipeline under the primary normalisation returns an error,
    [Decrypt] drops that error and runs the whole pipeline again under the
    alternate normalisation; what [Decrypt] then does is what the second run
    does, so when the second run fails too, the error returned is the second
    run's, whatever the first one was. *)
Theorem Decrypt_retry_returns_second_attempt data passphrase ks e1 :
  parses_to data ks ->
  keystoreV4.Checksum ks <> None ->
  keystoreV4.Cipher ks <> None ->
  decryptNorm ks (bytes_of_string (normPassphrase passphrase)) = Err e1 ->
  Decrypt (Some data) passphrase
  = decryptNorm ks (bytes_of_string (altNormPassphrase passphrase))
  /\ (forall e2,
        decryptNorm ks (bytes_of_string (altNormPassphrase passphrase)) = Err e2 ->
        Decrypt (Some data) passphrase = Err e2).
Proof.
  intros Hp Hcs Hc H1.
  assert (E : Decrypt (Some data) passphrase
              = decryptNorm ks (bytes_of_string (altNormPassphrase passphrase))).
  { rewrite (Decrypt_parsed data passphrase ks Hp Hcs Hc), H1. reflexivity. }
  split; [exact E|]. intros e2 H2. rewrite E. exact H2.
Qed.

(** C2: with a derived key of at least 32 bytes, a decoded ciphertext and a
    decoded stored checksum, the verifier hashes the 16 bytes of the key at
    offsets 16..31 followed by the ciphertext; the run goes on to the cipher
    when that digest equals the stored checksum and returns ChecksumMismatch
    otherwise, and in no other case. *)
Theorem checksum_verifier ks pass key cipher cipherMsg checksumMsg :
  at_checksum ks pass key cipher cipherMsg checksumMsg ->
  digest key cipherMsg = sha256_Sum (slice 16 32 key ++ cipherMsg)
  /\ List.length (slice 16 32 key) = 16%nat
  /\ (forall i, (i < 16)%nat ->
        nth_error (slice 16 32 key) i = nth_error key (16 + i))
  /\ (digest key cipherMsg = checksumMsg ->
        decryptNorm ks pass = decipher cipher key cipherMsg)
  /\ (decryptNorm ks pass = Err ChecksumMismatch <->
        digest key cipherMsg <> checksumMsg).
Proof.
  intros H. pose proof (decryptNorm_at_checksum _ _ _ _ _ _ H) as E.
  destruct H as (_ & Hlen & _).
  split; [reflexivity|].
  split; [apply slice_length; lia|].
  split; [intros i Hi; apply slice_nth; lia|].
  split.
  - intros D. apply bytes_Equal_eq in D. rewrite E, D. reflexivity.
  - rewrite E. destruct (bytes_Equal _ _) eqn:B.
    + apply bytes_Equal_eq in B. split.
      * intros F. now apply decipher_not_mismatch in F.
      * intros F. contradiction.
    + apply bytes_Equal_neq in B. split; [intros _; exact B | reflexivity].
Qed.

(** C3: the checksum is compared before the cipher is looked at.  When the
    computed digest differs from the decoded stored checksum, [decryptNorm]
    returns ChecksumMismatch, and it does so whatever the cipher function
    and the cipher parameters of the record are (unsupported, nil, with a
    bad IV); a run that returns a plaintext is one whose checksum verified;
    and a plaintext out of [Decrypt] comes from a record whose checksum
    verified under one of the two normalisations. *)
Theorem checksum_precedes_decryption :
  (forall ks pass key cipher cipherMsg checksumMsg,
      at_checksum ks pass key cipher cipherMsg checksumMsg ->
      digest key cipherMsg <> checksumMsg ->
      decryptNorm ks pass = Err ChecksumMismatch
      /\ forall function params,
           decryptNorm
             (keystoreV4.mk (keystoreV4.KDF ks) (keystoreV4.Checksum ks)
                (Some (ksCipher.mk function params (ksCipher.Message cipher))))
             pass
           = Err ChecksumMismatch)
  /\ (forall ks pass res,
        decryptNorm ks pass = Ok res -> verified ks pass = true)
  /\ (forall data passphrase res,
        Decrypt (Some data) passphrase = Ok res ->
        exists ks,
          parses_to data ks /\
          (verified ks (bytes_of_string (normPassphrase passphrase)) = true \/
           verified ks (bytes_of_string (altNormPassphrase passphrase)) = true)).
Proof.
  assert (V : forall ks pass res,
             decryptNorm ks pass = Ok res -> verified ks pass = true).
  { intros ks pass res H. apply verified_at_checksum.
    destruct (decryptNorm_Ok_inv _ _ _ H)
      as (key & cipher & cipherMsg & checksumMsg & Ha & Hd & _).
    now exists key, cipher, cipherMsg, checksumMsg. }
  split; [|split; [exact V|]].
  2: { intros data passphrase res H.
       destruct (Decrypt_Ok_inv _ _ _ H) as (ks & Hp & [H1|H2]);
         exists ks; (split; [exact Hp|]);
         [left; now apply V with res | right; now apply V with res]. }
  - intros ks pass key cipher cipherMsg checksumMsg H D.
    apply bytes_Equal_neq in D. split.
    + rewrite (decryptNorm_at_checksum _ _ _ _ _ _ H), D. reflexivity.
    + intros function params.
      destruct H as (Hk & Hlen & Hc & Hm & cs & Hcs & Hs).
      rewrite (decryptNorm_at_checksum _ pass key
                 (ksCipher.mk function params (ksCipher.Message cipher))
                 cipherMsg checksumMsg).
      * rewrite D. reflexivity.
      * unfold at_checksum. rewrite decryptionKey_kdf_only.
        repeat (split; [first [assumption | reflexivity]|]).
        exists cs. split; assumption.
Qed.

(** C4 (as amended): for a record without [kdf], the key of the checksum
    and cipher steps is the normalised passphrase itself, with no
    derivation; the run returns a plaintext exactly when the passphrase has
    at least 32 bytes, the checksum verifies and the cipher step, run with
    the passphrase as key, returns one; and it is then that plaintext. *)
Theorem absent_kdf_uses_passphrase ks pass :
  keystoreV4.KDF ks = None ->
  decryptionKey ks pass = Ok pass
  /\ (forall res,
        decryptNorm ks pass = Ok res <->
        (32 <= List.length pass)%nat /\ verified ks pass = true /\
        exists cipher cipherMsg,
          keystoreV4.Cipher ks = Some cipher /\
          hex_DecodeString (ksCipher.Message cipher) = Some cipherMsg /\
          decipher cipher pass cipherMsg = Ok res).
Proof.
  intros Hk.
  assert (K : decryptionKey ks pass = Ok pass)
    by (unfold decryptionKey; rewrite Hk; reflexivity).
  split; [exact K|]. intros res. split.
  - intros H.
    destruct (decryptNorm_Ok_inv _ _ _ H)
      as (key & cipher & cipherMsg & checksumMsg & Ha & Hd & Hres).
    assert (key = pass) as ->
      by (destruct Ha as (Hk' & _); rewrite K in Hk'; congruence).
    split; [apply Ha|]. split.
    + apply verified_at_checksum.
      now exists pass, cipher, cipherMsg, checksumMsg.
    + exists cipher, cipherMsg. destruct Ha as (_ & _ & Hc & Hm & _).
      now repeat split.
  - intros (Hlen & Hv & cipher & cipherMsg & Hc & Hm & Hres).
    apply verified_at_checksum in Hv
      as (key & cipher' & cipherMsg' & checksumMsg & Ha & Hd).
    pose proof (decryptNorm_at_checksum _ _ _ _ _ _ Ha) as E.
    destruct Ha as (Hk' & _ & Hc' & Hm' & _).
    assert (key = pass) as -> by (rewrite K in Hk'; congruence).
    assert (cipher' = cipher) as -> by congruence.
    assert (cipherMsg' = cipherMsg) as -> by congruence.
    apply bytes_Equal_eq in Hd. rewrite E, Hd. exact Hres.
Qed.

(** C5 (as amended): unknown identifiers are refused with an error that
    carries the identifier.  For a record whose [kdf] is present with its
    parameters and a salt that decodes: a function that is neither "scrypt"
    nor "pbkdf2" gives UnsupportedKDF with that function, and "pbkdf2" with a
    PRF other than "hmac-sha256" gives UnsupportedPRF with that PRF, from
    [decryptNorm] under any passphrase and so from [Decrypt].  For a record
    that reaches the comparison with a matching checksum: a cipher function
    other than "aes-128-ctr" gives UnsupportedCipher with that function. *)
Theorem unsupported_identifiers :
  (forall ks kdf kp salt,
      keystoreV4.KDF ks = Some kdf ->
      ksKDF.Params kdf = Some kp ->
      hex_DecodeString (ksKDFParams.Salt kp) = Some salt ->
      (ksKDF.Function kdf <> "scrypt"%string ->
       ksKDF.Function kdf <> "pbkdf2"%string ->
       (forall pass,
           decryptNorm ks pass = Err (UnsupportedKDF (ksKDF.Function kdf)))
       /\ (forall data passphrase,
             parses_to data ks ->
             keystoreV4.Checksum ks <> None -> keystoreV4.Cipher ks <> None ->
             Decrypt (Some data) passphrase
             = Err (UnsupportedKDF (ksKDF.Function kdf))))
      /\ (ksKDF.Function kdf = "pbkdf2"%string ->
          ksKDFParams.PRF kp <> "hmac-sha256"%string ->
          (forall pass,
              decryptNorm ks pass = Err (UnsupportedPRF (ksKDFParams.PRF kp)))
          /\ (forall data passphrase,
                parses_to data ks ->
                keystoreV4.Checksum ks <> None -> keystoreV4.Cipher ks <> None ->
                Decrypt (Some data) passphrase
                = Err (UnsupportedPRF (ksKDFParams.PRF kp)))))
  /\ (forall ks pass key cipher cipherMsg checksumMsg,
        at_checksum ks pass key cipher cipherMsg checksumMsg ->
        digest key cipherMsg = checksumMsg ->
        ksCipher.Function cipher <> "aes-128-ctr"%string ->
        decryptNorm ks pass = Err (UnsupportedCipher (ksCipher.Function cipher))).
Proof.
  split.
  - intros ks kdf kp salt Hk Hp Hs. split.
    + intros F1 F2.
      assert (E : forall pass,
                 decryptNorm ks pass = Err (UnsupportedKDF (ksKDF.Function kdf))).
      { intros pass. apply decryptNorm_key_error.
        rewrite (decryptionKey_dispatch ks pass kdf kp salt Hk Hp Hs).
        destruct (String.eqb_spec (ksKDF.Function kdf) "scrypt"); [contradiction|].
        destruct (String.eqb_spec (ksKDF.Function kdf) "pbkdf2"); [contradiction|].
        reflexivity. }
      split; [exact E|]. intros data passphrase Hpar Hcs Hc.
      now apply Decrypt_both_fail with ks.
    + intros F P.
      assert (E : forall pass,
                 decryptNorm ks pass = Err (UnsupportedPRF (ksKDFParams.PRF kp))).
      { intros pass. apply decryptNorm_key_error.
        rewrite (decryptionKey_dispatch ks pass kdf kp salt Hk Hp Hs), F.
        cbn [String.eqb Ascii.eqb Bool.eqb].
        destruct (String.eqb_spec (ksKDFParams.PRF kp) "hmac-sha256");
          [contradiction | reflexivity]. }
      split; [exact E|]. intros data passphrase Hpar Hcs Hc.
      now apply Decrypt_both_fail with ks.
  - intros ks pass key cipher cipherMsg checksumMsg Ha Hd F.
    rewrite (decryptNorm_at_checksum _ _ _ _ _ _ Ha).
    apply bytes_Equal_eq in Hd. rewrite Hd.
    now apply decipher_unsupported.
Qed.

(** C6: a derived key of fewer than 32 bytes, whether it comes out of a KDF
    or is the passphrase itself, makes the pipeline fail with
    DerivedKeyTooShort.  The check follows the derivation (an error of the
    derivation is returned instead) and precedes the checksum and the
    cipher: the result is the same whatever the checksum and cipher
    sub-records hold, nil included. *)
Theorem short_key_rejected ks pass key :
  decryptionKey ks pass = Ok key ->
  (List.length key < 32)%nat ->
  decryptNorm ks pass = Err DerivedKeyTooShort
  /\ (forall checksum cipher,
        decryptNorm (keystoreV4.mk (keystoreV4.KDF ks) checksum cipher) pass
        = Err DerivedKeyTooShort)
  /\ (forall ks' pass' e,
        decryptionKey ks' pass' = Err e -> decryptNorm ks' pass' = Err e).
Proof.
  intros H L. split; [|split].
  - now apply decryptNorm_short_key with key.
  - intros checksum cipher. apply decryptNorm_short_key with key; [|exact L].
    rewrite decryptionKey_kdf_only. exact H.
  - intros ks' pass' e. apply decryptNorm_key_error.
Qed.

(** C7: structural failures come back at once, whatever the primitives and
    the passphrase are, so before any normalisation or key derivation and
    with no second attempt: a nil map gives NoData; a record that cannot be
    encoded, or whose encoding cannot be decoded into the keystore shape,
    gives MalformedRecord; a parsed record without [checksum] gives
    MissingChecksum and one with [checksum] and without [cipher] gives
    MissingCipher, whether [kdf] is there or not. *)
Theorem structural_failures_surface :
  (forall passphrase, Decrypt None passphrase = Err NoData)
  /\ (forall data passphrase,
        json_Marshal data = None ->
        Decrypt (Some data) passphrase = Err MalformedRecord)
  /\ (forall data b passphrase,
        json_Marshal data = Some b -> json_Unmarshal b = None ->
        Decrypt (Some data) passphrase = Err MalformedRecord)
  /\ (forall data ks passphrase,
        parses_to data ks -> keystoreV4.Checksum ks = None ->
        Decrypt (Some data) passphrase = Err MissingChecksum)
  /\ (forall data ks passphrase,
        parses_to data ks -> keystoreV4.Checksum ks <> None ->
        keystoreV4.Cipher ks = None ->
        Decrypt (Some data) passphrase = Err MissingCipher).
Proof.
  repeat split.
  - intros data passphrase H. unfold Decrypt. rewrite H. reflexivity.
  - intros data b passphrase Hm Hu. unfold Decrypt. rewrite Hm, Hu. reflexivity.
  - intros data ks passphrase (b & Hm & Hu) Hcs. unfold Decrypt.
    rewrite Hm, Hu, Hcs. reflexivity.
  - intros data ks passphrase (b & Hm & Hu) Hcs Hc. unfold Decrypt.
    rewrite Hm, Hu, Hc. destruct (keystoreV4.Checksum ks); congruence.
Qed.

(** C8: for a record with cipher function "aes-128-ctr" that passes the
    checksum, a returned plaintext is the counter-mode decryption of the
    decoded ciphertext under the first 16 bytes of the derived key and the
    decoded IV, and has the length of the ciphertext; it is returned
    whenever the IV decodes to a block of 16 bytes; and an IV that does not
    decode gives InvalidIV. *)
Theorem aes_128_ctr_decryption ks pass key cipher cipherMsg checksumMsg :
  at_checksum ks pass key cipher cipherMsg checksumMsg ->
  digest key cipherMsg = checksumMsg ->
  ksCipher.Function cipher = "aes-128-ctr"%string ->
  List.length (firstn 16 key) = 16%nat
  /\ (forall res,
        decryptNorm ks pass = Ok res ->
        List.length res = List.length cipherMsg /\
        exists params iv,
          ksCipher.Params cipher = Some params /\
          hex_DecodeString (ksCipherParams.IV params) = Some iv /\
          res = ctr_decrypt (firstn 16 key) iv cipherMsg)
  /\ (forall params iv,
        ksCipher.Params cipher = Some params ->
        hex_DecodeString (ksCipherParams.IV params) = Some iv ->
        List.length iv = 16%nat ->
        decryptNorm ks pass = Ok (ctr_decrypt (firstn 16 key) iv cipherMsg))
  /\ (forall params,
        ksCipher.Params cipher = Some params ->
        hex_DecodeString (ksCipherParams.IV params) = None ->
        decryptNorm ks pass = Err InvalidIV).
Proof.
  intros Ha Hd F.
  pose proof (decryptNorm_at_checksum _ _ _ _ _ _ Ha) as E.
  apply bytes_Equal_eq in Hd. rewrite Hd in E.
  assert (Hlen : (32 <= List.length key)%nat) by apply Ha.
  rewrite (decipher_aes cipher key cipherMsg Hlen F) in E.
  split; [rewrite length_firstn; lia|]. split; [|split].
  - intros res. rewrite E.
    destruct (ksCipher.Params cipher) as [params|]; [|discriminate].
    destruct (hex_DecodeString (ksCipherParams.IV params)) as [iv|] eqn:Hiv;
      [|discriminate].
    destruct (List.length iv =? BlockSize)%nat; [|discriminate].
    intros H. injection H as <-. split; [apply ctr_decrypt_length|].
    exists params, iv. now repeat split.
  - intros params iv Hp Hiv L. rewrite E, Hp, Hiv, L. reflexivity.
  - intros params Hp Hiv. rewrite E, Hp, Hiv. reflexivity.
Qed.

(** C9: some records that parse make [Decrypt] panic on a nil pointer
    instead of returning an error.  A record whose [kdf] is present and has
    no parameters panics at the read of the salt, under any passphrase: so do
    the two sample records, one without a [params] member and one with a
    null one, through [Decrypt].  A record with cipher function "aes-128-ctr"
    and no cipher parameters panics at the read of the IV once its checksum
    has verified; such a record exists for every key of 32 bytes or more. *)
Theorem nil_params_panic :
  (forall ks pass kdf,
      keystoreV4.KDF ks = Some kdf -> ksKDF.Params kdf = None ->
      decryptNorm ks pass = Panic NilDereference)
  /\ (forall passphrase,
        Decrypt (Some data_kdf_without_params) passphrase = Panic NilDereference
        /\ Decrypt (Some data_kdf_null_params) passphrase = Panic NilDereference)
  /\ (forall ks pass key cipher cipherMsg checksumMsg,
        at_checksum ks pass key cipher cipherMsg checksumMsg ->
        digest key cipherMsg = checksumMsg ->
        ksCipher.Function cipher = "aes-128-ctr"%string ->
        ksCipher.Params cipher = None ->
        decryptNorm ks pass = Panic NilDereference)
  /\ (forall data passphrase ks cipher,
        parses_to data ks ->
        keystoreV4.Checksum ks <> None ->
        keystoreV4.Cipher ks = Some cipher ->
        ksCipher.Function cipher = "aes-128-ctr"%string ->
        ksCipher.Params cipher = None ->
        verified ks (bytes_of_string (normPassphrase passphrase)) = true ->
        Decrypt (Some data) passphrase = Panic NilDereference)
  /\ (forall key cipherMsg,
        (32 <= List.length key)%nat ->
        decryptNorm (sealed key "aes-128-ctr" None cipherMsg) key
        = Panic NilDereference).
Proof.
  assert (A : forall ks pass kdf,
             keystoreV4.KDF ks = Some kdf -> ksKDF.Params kdf = None ->
             decryptNorm ks pass = Panic NilDereference).
  { intros ks pass kdf Hk Hp. apply decryptNorm_key_panic.
    now apply decryptionKey_nil_params with kdf. }
  assert (C : forall ks pass key cipher cipherMsg checksumMsg,
             at_checksum ks pass key cipher cipherMsg checksumMsg ->
             digest key cipherMsg = checksumMsg ->
             ksCipher.Function cipher = "aes-128-ctr"%string ->
             ksCipher.Params cipher = None ->
             decryptNorm ks pass = Panic NilDereference).
  { intros ks pass key cipher cipherMsg checksumMsg Ha Hd F Hp.
    rewrite (decryptNorm_at_checksum _ _ _ _ _ _ Ha).
    apply bytes_Equal_eq in Hd. rewrite Hd.
    rewrite (decipher_aes cipher key cipherMsg (proj1 (proj2 Ha)) F), Hp.
    reflexivity. }
  split; [exact A|]. split; [|split; [exact C|split]].
  - intros passphrase. split.
    + apply Decrypt_first_panic with (ks_of data_kdf_without_params);
        [now exists data_kdf_without_params | discriminate | discriminate |].
      now apply A with (ksKDF.mk "scrypt" None "").
    + apply Decrypt_first_panic with (ks_of data_kdf_null_params);
        [now exists data_kdf_null_params | discriminate | discriminate |].
      now apply A with (ksKDF.mk "scrypt" None "").
  - intros data passphrase ks cipher Hpar Hcs Hc F Hp Hv.
    apply Decrypt_first_panic with ks; [assumption | assumption | congruence |].
    apply verified_at_checksum in Hv
      as (key & cipher' & cipherMsg & checksumMsg & Ha & Hd).
    assert (cipher' = cipher) as ->
      by (destruct Ha as (_ & _ & Hc' & _); congruence).
    now apply C with key cipher cipherMsg checksumMsg.
  - intros key cipherMsg H. rewrite (sealed_run _ _ _ _ H).
    rewrite decipher_aes; [reflexivity | exact H | reflexivity].
Qed.

(** C10: the length of the decoded IV is not checked.  For a record with
    cipher function "aes-128-ctr" and a matching checksum whose IV decodes
    to other than 16 bytes, building the counter stream panics, and so does
    [Decrypt] when this happens under the primary normalisation; such a
    record exists for every key of 32 bytes or more.  InvalidIV is returned
    for an IV that fails to decode, and for nothing else. *)
Theorem iv_length_unchecked :
  (forall ks pass key cipher cipherMsg checksumMsg params iv,
      at_checksum ks pass key cipher cipherMsg checksumMsg ->
      digest key cipherMsg = checksumMsg ->
      ksCipher.Function cipher = "aes-128-ctr"%string ->
      ksCipher.Params cipher = Some params ->
      hex_DecodeString (ksCipherParams.IV params) = Some iv ->
      List.length iv <> 16%nat ->
      decryptNorm ks pass = Panic IVLength
      /\ (forall data passphrase,
            parses_to data ks ->
            pass = bytes_of_string (normPassphrase passphrase) ->
            Decrypt (Some data) passphrase = Panic IVLength))
  /\ (forall key cipherMsg,
        (32 <= List.length key)%nat ->
        decryptNorm
          (sealed key "aes-128-ctr" (Some (ksCipherParams.mk "00")) cipherMsg) key
        = Panic IVLength)
  /\ (forall ks pass,
        decryptNorm ks pass = Err InvalidIV ->
        exists cipher params,
          keystoreV4.Cipher ks = Some cipher /\
          ksCipher.Params cipher = Some params /\
          hex_DecodeString (ksCipherParams.IV params) = None).
Proof.
  split; [|split].
  - intros ks pass key cipher cipherMsg checksumMsg params iv Ha Hd F Hp Hiv L.
    assert (E : decryptNorm ks pass = Panic IVLength).
    { rewrite (decryptNorm_at_checksum _ _ _ _ _ _ Ha).
      apply bytes_Equal_eq in Hd. rewrite Hd.
      rewrite (decipher_aes cipher key cipherMsg (proj1 (proj2 Ha)) F), Hp, Hiv.
      destruct (Nat.eqb_spec (List.length iv) BlockSize) as [B|B];
        [contradiction | reflexivity]. }
    split; [exact E|]. intros data passphrase Hpar ->.
    destruct Ha as (_ & _ & Hc & _ & cs & Hcs & _).
    apply Decrypt_first_panic with ks; [assumption | congruence | congruence |].
    exact E.
  - intros key cipherMsg H. rewrite (sealed_run _ _ _ _ H).
    rewrite decipher_aes; [reflexivity | exact H | reflexivity].
  - intros ks pass. unfold decryptNorm, decode_or.
    destruct (decryptionKey ks pass) as [key| |] eqn:Hk; cbn [bind].
    + destruct (Nat.ltb_spec (List.length key) 32) as [|Hlen]; [discriminate|].
      destruct (keystoreV4.Cipher ks) as [cipher|]; cbn [deref bind];
        [|discriminate].
      destruct (hex_DecodeString (ksCipher.Message cipher)) as [cipherMsg|];
        cbn [bind]; [|discriminate].
      destruct (keystoreV4.Checksum ks) as [cs|]; cbn [deref bind];
        [|discriminate].
      destruct (hex_DecodeString (ksChecksum.Message cs)); cbn [bind];
        [|discriminate].
      destruct (bytes_Equal _ _); cbn [negb]; [|discriminate].
      intros H. apply (decipher_InvalidIV_inv _ _ _ Hlen) in H as (params & Hp & Hiv).
      now exists cipher, params.
    + intros H. injection H as ->. now apply decryptionKey_not_InvalidIV in Hk.
    + discriminate.
Qed.

End Claims.

(** * The claims on sample records *)

(** Every sample record is encoded and decoded without error. *)
Lemma sample_parses (data : object) :
  json_Marshal data = Some data ->
  json_Unmarshal data <> None ->
  parses_to data (ks_of data).
Proof.
  intros Hm Hu. exists data. split; [exact Hm|]. unfold ks_of.
  destruct (json_Unmarshal data); [reflexivity | contradiction].
Defined.

(** Goals on closed sample records are settled by evaluation. *)
Ltac run :=
  vm_compute;
  first [reflexivity | discriminate | (let H := fresh in intro H; discriminate H) | lia].

Ltac staged :=
  unfold at_checksum;
  repeat (split; [run|]);
  eexists; split; [reflexivity | run].

Ltac parsed := apply sample_parses; run.

Lemma differs (key cipherMsg checksumMsg : bytes) (prim : Primitives) :
  bytes_Equal (@digest prim key cipherMsg) checksumMsg = false ->
  @digest prim key cipherMsg <> checksumMsg.
Proof. apply bytes_Equal_neq. Defined.

(** C1 on a sample: the sealed record and a passphrase ending in a tab.
    The primary normalisation drops the tab and leaves 31 bytes, the
    alternate one keeps 32 bytes that do not match the checksum; [Decrypt]
    returns the second error. *)
Lemma Decrypt_retry_returns_second_attempt_witness :
  @decryptNorm sample_primitives ks_sealed
     (bytes_of_string (strip_controls pass31_tab)) = Err DerivedKeyTooShort
  /\ @Decrypt sample_primitives
       (Some (data_sealed "aes-128-ctr" (params_iv iv16))) pass31_tab
     = Err ChecksumMismatch.
Proof.
  split; [run|].
  apply (proj2 (@Decrypt_retry_returns_second_attempt sample_primitives
                  (data_sealed "aes-128-ctr" (params_iv iv16)) pass31_tab
                  ks_sealed DerivedKeyTooShort
                  ltac:(parsed) ltac:(run) ltac:(run) ltac:(run))).
  run.
Defined.

(** C2 on a sample: the sealed record under its own passphrase goes on to
    the cipher. *)
Lemma checksum_verifier_witness :
  @decryptNorm sample_primitives ks_sealed (bytes_of_string pass32)
  = @decipher sample_primitives (cipher_of ks_sealed) (bytes_of_string pass32)
      deadbeef.
Proof.
  apply (proj1 (proj2 (proj2 (proj2
           (@checksum_verifier sample_primitives ks_sealed
              (bytes_of_string pass32) (bytes_of_string pass32)
              (cipher_of ks_sealed) deadbeef checksum_sealed ltac:(staged)))))).
  run.
Defined.

(** C3 on a sample: the sealed record under another 32-byte passphrase
    fails on the checksum, also when its cipher is unknown and has no
    parameters. *)
Lemma checksum_precedes_decryption_witness :
  @decryptNorm sample_primitives ks_sealed (bytes_of_string pass31_tab)
  = Err ChecksumMismatch
  /\ @decryptNorm sample_primitives
       (keystoreV4.mk (keystoreV4.KDF ks_sealed) (keystoreV4.Checksum ks_sealed)
          (Some (ksCipher.mk "foo" None (ksCipher.Message (cipher_of ks_sealed)))))
       (bytes_of_string pass31_tab)
     = Err ChecksumMismatch.
Proof.
  pose proof (proj1 (@checksum_precedes_decryption sample_primitives) ks_sealed
                (bytes_of_string pass31_tab) (bytes_of_string pass31_tab)
                (cipher_of ks_sealed) deadbeef checksum_sealed ltac:(staged)
                (differs (bytes_of_string pass31_tab) deadbeef checksum_sealed
                   sample_primitives ltac:(run))) as [H1 H2].
  split; [exact H1 | exact (H2 "foo"%string None)].
Defined.

(** C4 on a sample: the sealed record under its own passphrase returns a
    plaintext, so the passphrase has 32 bytes and the checksum verifies. *)
Lemma absent_kdf_uses_passphrase_witness :
  @decryptionKey sample_primitives ks_sealed (bytes_of_string pass32)
  = Ok (bytes_of_string pass32)
  /\ ((32 <= List.length (bytes_of_string pass32))%nat
      /\ @verified sample_primitives ks_sealed (bytes_of_string pass32) = true).
Proof.
  pose proof (@absent_kdf_uses_passphrase sample_primitives ks_sealed
                (bytes_of_string pass32) ltac:(run)) as [H1 H2].
  split; [exact H1|].
  destruct (proj1 (H2 [Byte.xee; Byte.x9d; Byte.x8e; Byte.xdf]) ltac:(run))
    as (L & V & _).
  split; [exact L | exact V].
Defined.

(** C4 as stated fails: a record without [kdf], with a passphrase of 32
    bytes or more and a checksum that verifies, yet no plaintext: its cipher
    is unknown.  This is so for every digest function and every such
    passphrase; the sample record is run under the sample primitives. *)
Lemma absent_kdf_unsupported_cipher :
  (forall (prim : Primitives) (key : bytes),
      (32 <= List.length key)%nat ->
      keystoreV4.KDF (@sealed prim key "foo" None deadbeef) = None
      /\ @verified prim (@sealed prim key "foo" None deadbeef) key = true
      /\ @decryptNorm prim (@sealed prim key "foo" None deadbeef) key
         = Err (UnsupportedCipher "foo"))
  /\ keystoreV4.KDF (ks_of (data_sealed "foo" VNull)) = None
  /\ @decryptNorm sample_primitives (ks_of (data_sealed "foo" VNull))
       (bytes_of_string pass32)
     = Err (UnsupportedCipher "foo")
  /\ ~ ((exists res,
           @decryptNorm sample_primitives (ks_of (data_sealed "foo" VNull))
             (bytes_of_string pass32) = Ok res)
        <-> (32 <= List.length (bytes_of_string pass32))%nat
            /\ @verified sample_primitives (ks_of (data_sealed "foo" VNull))
                 (bytes_of_string pass32) = true).
Proof.
  split.
  { intros prim key H. split; [reflexivity|].
    apply sealed_unsupported_cipher; [exact H | discriminate]. }
  split; [run|]. split; [run|].
  intros [_ H]. destruct H as [res Hres]; [split; run|].
  vm_compute in Hres. discriminate Hres.
Qed.

(** C5 on samples: an unknown KDF and an unknown PRF with a salt that
    decodes, and an unknown cipher behind a checksum that verifies. *)
Lemma unsupported_identifiers_witness :
  @Decrypt sample_primitives (Some (data_kdf "foo" "00" "hmac-sha256")) pass32
  = Err (UnsupportedKDF "foo")
  /\ @Decrypt sample_primitives (Some (data_kdf "pbkdf2" "00" "foo")) pass32
     = Err (UnsupportedPRF "foo")
  /\ @decryptNorm sample_primitives (ks_of (data_sealed "foo" VNull))
       (bytes_of_string pass32)
     = Err (UnsupportedCipher "foo").
Proof.
  destruct (@unsupported_identifiers sample_primitives) as [HK HC].
  split; [|split].
  - refine (proj2 (proj1 (HK (ks_of (data_kdf "foo" "00" "hmac-sha256"))
                            (ksKDF.mk "foo"
                               (Some (ksKDFParams.mk "00" 32 0 0 0 262144
                                        "hmac-sha256")) "")
                            (ksKDFParams.mk "00" 32 0 0 0 262144 "hmac-sha256")
                            [Byte.x00] ltac:(run) ltac:(run) ltac:(run))
                     ltac:(run) ltac:(run))
              (data_kdf "foo" "00" "hmac-sha256") pass32
              ltac:(parsed) ltac:(run) ltac:(run)).
  - refine (proj2 (proj2 (HK (ks_of (data_kdf "pbkdf2" "00" "foo"))
                            (ksKDF.mk "pbkdf2"
                               (Some (ksKDFParams.mk "00" 32 0 0 0 262144 "foo")) "")
                            (ksKDFParams.mk "00" 32 0 0 0 262144 "foo")
                            [Byte.x00] ltac:(run) ltac:(run) ltac:(run))
                     ltac:(run) ltac:(run))
              (data_kdf "pbkdf2" "00" "foo") pass32
              ltac:(parsed) ltac:(run) ltac:(run)).
  - refine (HC (ks_of (data_sealed "foo" VNull)) (bytes_of_string pass32)
              (bytes_of_string pass32) (cipher_of (ks_of (data_sealed "foo" VNull)))
              deadbeef checksum_sealed ltac:(staged) ltac:(run) ltac:(run)).
Defined.

(** C5 as stated fails: a record whose [kdf] names the unknown function
    "foo" and whose salt is not hexadecimal is refused for its salt, by
    [decryptNorm] and by [Decrypt], whatever the primitives and the
    passphrase. *)
Lemma unknown_kdf_bad_salt :
  (exists kdf,
      keystoreV4.KDF (ks_of (data_kdf "foo" "zz" "hmac-sha256")) = Some kdf /\
      ksKDF.Function kdf = "foo"%string)
  /\ (forall (prim : Primitives) pass,
        @decryptNorm prim (ks_of (data_kdf "foo" "zz" "hmac-sha256")) pass
        = Err InvalidKDFSalt)
  /\ (forall (prim : Primitives) passphrase,
        @Decrypt prim (Some (data_kdf "foo" "zz" "hmac-sha256")) passphrase
        = Err InvalidKDFSalt)
  /\ ~ (forall (prim : Primitives) pass,
          @decryptNorm prim (ks_of (data_kdf "foo" "zz" "hmac-sha256")) pass
          = Err (UnsupportedKDF "foo")).
Proof.
  assert (E : forall (prim : Primitives) pass,
             @decryptNorm prim (ks_of (data_kdf "foo" "zz" "hmac-sha256")) pass
             = Err InvalidKDFSalt) by (intros prim pass; reflexivity).
  split; [eexists; split; reflexivity|]. split; [exact E|]. split.
  - intros prim passphrase.
    apply Decrypt_both_fail with (ks_of (data_kdf "foo" "zz" "hmac-sha256"));
      [parsed | run | run | apply E].
  - intros H. specialize (H sample_primitives []). rewrite E in H.
    discriminate H.
Qed.

(** C6 on a sample: the sealed record under a five-byte passphrase. *)
Lemma short_key_rejected_witness :
  @decryptNorm sample_primitives ks_sealed (bytes_of_string "short")
  = Err DerivedKeyTooShort.
Proof.
  apply (proj1 (@short_key_rejected sample_primitives ks_sealed
                  (bytes_of_string "short") (bytes_of_string "short")
                  ltac:(run) ltac:(run))).
Defined.

(** C7 on samples: a record holding a value that cannot be encoded, one
    whose [kdf] is a string, one with only a cipher and one with only a
    checksum. *)
Lemma structural_failures_surface_witness :
  @Decrypt sample_primitives (Some [("kdf"%string, VUnsupported)]) pass32
  = Err MalformedRecord
  /\ @Decrypt sample_primitives (Some [("kdf"%string, VStr "scrypt")]) pass32
     = Err MalformedRecord
  /\ @Decrypt sample_primitives
       (Some [member_cipher "aes-128-ctr" (params_iv iv16) "deadbeef"]) pass32
     = Err MissingChecksum
  /\ @Decrypt sample_primitives (Some [member_checksum ""]) pass32
     = Err MissingCipher.
Proof.
  destruct (@structural_failures_surface sample_primitives)
    as (_ & H2 & H3 & H4 & H5).
  split; [|split; [|split]].
  - exact (H2 [("kdf"%string, VUnsupported)] pass32 ltac:(run)).
  - exact (H3 [("kdf"%string, VStr "scrypt")] [("kdf"%string, VStr "scrypt")]
             pass32 ltac:(run) ltac:(run)).
  - exact (H4 [member_cipher "aes-128-ctr" (params_iv iv16) "deadbeef"]
             (ks_of [member_cipher "aes-128-ctr" (params_iv iv16) "deadbeef"])
             pass32 ltac:(parsed) ltac:(run)).
  - exact (H5 [member_checksum ""] (ks_of [member_checksum ""]) pass32
             ltac:(parsed) ltac:(run) ltac:(run)).
Defined.

(** C8 on a sample: the sealed record under its own passphrase returns the
    four bytes of the counter-mode decryption. *)
Lemma aes_128_ctr_decryption_witness :
  @decryptNorm sample_primitives ks_sealed (bytes_of_string pass32)
  = Ok (@ctr_decrypt sample_primitives (firstn 16 (bytes_of_string pass32))
          (be_bytes 16 0x000102030405060708090a0b0c0d0e0f) deadbeef).
Proof.
  refine (proj1 (proj2 (proj2
            (@aes_128_ctr_decryption sample_primitives ks_sealed
               (bytes_of_string pass32) (bytes_of_string pass32)
               (cipher_of ks_sealed) deadbeef checksum_sealed
               ltac:(staged) ltac:(run) ltac:(run))))
            (ksCipherParams.mk iv16)
            (be_bytes 16 0x000102030405060708090a0b0c0d0e0f)
            ltac:(run) ltac:(run) ltac:(run)).
Defined.

(** C9 on a sample: the sealed record with a null cipher [params], under
    the passphrase whose checksum it carries. *)
Lemma nil_params_panic_witness :
  @Decrypt sample_primitives (Some (data_sealed "aes-128-ctr" VNull)) pass32
  = Panic NilDereference.
Proof.
  refine (proj1 (proj2 (proj2 (proj2 (@nil_params_panic sample_primitives))))
            (data_sealed "aes-128-ctr" VNull) pass32
            (ks_of (data_sealed "aes-128-ctr" VNull))
            (cipher_of (ks_of (data_sealed "aes-128-ctr" VNull)))
            ltac:(parsed) ltac:(run) ltac:(run) ltac:(run) ltac:(run) ltac:(run)).
Defined.

(** C10 on a sample: the sealed record with a two-byte IV. *)
Lemma iv_length_unchecked_witness :
  @Decrypt sample_primitives (Some (data_sealed "aes-128-ctr" (params_iv "0001")))
    pass32
  = Panic IVLength.
Proof.
  refine (proj2 (proj1 (@iv_length_unchecked sample_primitives)
                   (ks_of (data_sealed "aes-128-ctr" (params_iv "0001")))
                   (bytes_of_string pass32) (bytes_of_string pass32)
                   (cipher_of (ks_of (data_sealed "aes-128-ctr" (params_iv "0001"))))
                   deadbeef checksum_sealed (ksCipherParams.mk "0001")
                   [Byte.x00; Byte.x01]
                   ltac:(staged) ltac:(run) ltac:(run) ltac:(run) ltac:(run)
                   ltac:(run))
            (data_sealed "aes-128-ctr" (params_iv "0001")) pass32
            ltac:(parsed) ltac:(run)).
Defined.

(** * Further properties of the decryptor *)

Section Attempts.

Context {prim : Primitives}.

(** What [Decrypt] does on a record that does not parse into a keystore
    with a checksum and a cipher is an error. *)
Lemma Decrypt_inv data passphrase :
  (exists e, Decrypt (Some data) passphrase = Err e /\
             In e [MalformedRecord; MissingChecksum; MissingCipher])
  \/ exists ks,
       parses_to data ks /\
       keystoreV4.Checksum ks <> None /\ keystoreV4.Cipher ks <> None /\
       Decrypt (Some data) passphrase
       = match decryptNorm ks (bytes_of_string (normPassphrase passphrase)) with
         | Err _ => decryptNorm ks (bytes_of_string (altNormPassphrase passphrase))
         | r => r
         end.
Proof.
  destruct (json_Marshal data) as [b|] eqn:Hm.
  2: { left. exists MalformedRecord. unfold Decrypt. rewrite Hm.
       split; [reflexivity | now left]. }
  destruct (json_Unmarshal b) as [ks|] eqn:Hu.
  2: { left. exists MalformedRecord. unfold Decrypt. rewrite Hm, Hu.
       split; [reflexivity | now left]. }
  destruct (keystoreV4.Checksum ks) as [cs|] eqn:Hcs.
  2: { left. exists MissingChecksum. unfold Decrypt. rewrite Hm, Hu, Hcs.
       split; [reflexivity | right; now left]. }
  destruct (keystoreV4.Cipher ks) as [c|] eqn:Hc.
  2: { left. exists MissingCipher. unfold Decrypt. rewrite Hm, Hu, Hcs, Hc.
       split; [reflexivity | right; right; now left]. }
  right. exists ks.
  assert (P : parses_to data ks) by now exists b.
  split; [exact P|]. split; [congruence|]. split; [congruence|].
  apply Decrypt_parsed; [exact P | congruence | congruence].
Qed.

(** X1: [Decrypt] returns a plaintext exactly when the record parses into
    a keystore with a checksum and a cipher and either the attempt under the
    primary normalisation returns that plaintext, or that attempt returns an
    error and the attempt under the alternate normalisation returns the
    plaintext. *)
Theorem Decrypt_succeeds_iff data passphrase res :
  Decrypt (Some data) passphrase = Ok res <->
  exists ks,
    parses_to data ks /\
    keystoreV4.Checksum ks <> None /\ keystoreV4.Cipher ks <> None /\
    (decryptNorm ks (bytes_of_string (normPassphrase passphrase)) = Ok res
     \/ ((exists e,
            decryptNorm ks (bytes_of_string (normPassphrase passphrase)) = Err e)
         /\ decryptNorm ks (bytes_of_string (altNormPassphrase passphrase))
            = Ok res)).
Proof.
  split.
  - intros H. destruct (Decrypt_inv data passphrase)
      as [(e & He & _) | (ks & Hp & Hcs & Hc & E)]; [congruence|].
    exists ks. repeat (split; [assumption|]). rewrite E in H.
    destruct (decryptNorm ks (bytes_of_string (normPassphrase passphrase)))
      as [r1|e1|p1]; [left; exact H | right | discriminate].
    split; [now exists e1 | exact H].
  - intros (ks & Hp & Hcs & Hc & [H1 | [[e He] H2]]);
      rewrite (Decrypt_parsed data passphrase ks Hp Hcs Hc).
    + rewrite H1. reflexivity.
    + rewrite He. exact H2.
Qed.

(** X2: for a passphrase that the two normalisations map to the same
    string, the second attempt repeats the first: [Decrypt] does what the
    one attempt does, error included. *)
Theorem Decrypt_normalisations_agree data passphrase ks :
  parses_to data ks ->
  keystoreV4.Checksum ks <> None ->
  keystoreV4.Cipher ks <> None ->
  normPassphrase passphrase = altNormPassphrase passphrase ->
  Decrypt (Some data) passphrase
  = decryptNorm ks (bytes_of_string (normPassphrase passphrase)).
Proof.
  intros Hp Hcs Hc E.
  rewrite (Decrypt_parsed data passphrase ks Hp Hcs Hc), <- E.
  destruct (decryptNorm ks (bytes_of_string (normPassphrase passphrase)));
    reflexivity.
Qed.

(** X3: a wrong passphrase is reported as ChecksumMismatch.  When under
    each of the two normalisations the run reaches the comparison and the
    digest differs from the stored checksum, [Decrypt] returns
    ChecksumMismatch. *)
Theorem wrong_passphrase_mismatch data passphrase ks
    key1 key2 cipher cipherMsg checksumMsg :
  parses_to data ks ->
  at_checksum ks (bytes_of_string (normPassphrase passphrase)) key1
    cipher cipherMsg checksumMsg ->
  at_checksum ks (bytes_of_string (altNormPassphrase passphrase)) key2
    cipher cipherMsg checksumMsg ->
  digest key1 cipherMsg <> checksumMsg ->
  digest key2 cipherMsg <> checksumMsg ->
  Decrypt (Some data) passphrase = Err ChecksumMismatch.
Proof.
  intros Hp H1 H2 D1 D2.
  apply bytes_Equal_neq in D1, D2.
  assert (Hc : keystoreV4.Cipher ks <> None)
    by (destruct H1 as (_ & _ & Hc & _); congruence).
  assert (Hcs : keystoreV4.Checksum ks <> None)
    by (destruct H1 as (_ & _ & _ & _ & cs & Hcs & _); congruence).
  rewrite (Decrypt_parsed data passphrase ks Hp Hcs Hc).
  rewrite (decryptNorm_at_checksum _ _ _ _ _ _ H1), D1.
  rewrite (decryptNorm_at_checksum _ _ _ _ _ _ H2), D2.
  reflexivity.
Qed.

End Attempts.

Section Failures.

Context {prim : Primitives}.

Lemma in_errors_of_base ks e :
  In e [InvalidKDFSalt; InvalidKDFParameters; DerivedKeyTooShort;
        InvalidCipherMessage; InvalidChecksumEncoding; ChecksumMismatch;
        InvalidIV] ->
  In e (errors_of ks).
Proof. intros H. unfold errors_of. apply in_or_app. now left. Qed.

Lemma in_errors_of_kdf ks kdf :
  keystoreV4.KDF ks = Some kdf ->
  In (UnsupportedKDF (ksKDF.Function kdf)) (errors_of ks).
Proof.
  intros H. unfold errors_of. rewrite H.
  apply in_or_app. right. apply in_or_app. left. now left.
Qed.

Lemma in_errors_of_prf ks kdf kp :
  keystoreV4.KDF ks = Some kdf -> ksKDF.Params kdf = Some kp ->
  In (UnsupportedPRF (ksKDFParams.PRF kp)) (errors_of ks).
Proof.
  intros H Hp. unfold errors_of. rewrite H, Hp.
  apply in_or_app. right. apply in_or_app. left. right. now left.
Qed.

Lemma in_errors_of_cipher ks c :
  keystoreV4.Cipher ks = Some c ->
  In (UnsupportedCipher (ksCipher.Function c)) (errors_of ks).
Proof.
  intros H. unfold errors_of. rewrite H.
  apply in_or_app. right. apply in_or_app. right. now left.
Qed.

(** The errors of the key derivation. *)
Lemma decryptionKey_errors ks pass e :
  decryptionKey ks pass = Err e -> In e (errors_of ks).
Proof.
  unfold decryptionKey, decode_or.
  destruct (keystoreV4.KDF ks) as [kdf|] eqn:Hk; [|discriminate].
  destruct (ksKDF.Params kdf) as [kp|] eqn:Hp; cbn [deref bind]; [|discriminate].
  destruct (hex_DecodeString (ksKDFParams.Salt kp)); cbn [bind].
  - destruct (String.eqb _ "scrypt").
    + destruct (scrypt_Key _ _ _ _ _ _) as [[k|]|]; try discriminate.
      intros H. injection H as <-. apply in_errors_of_base. cbn. tauto.
    + destruct (String.eqb _ "pbkdf2").
      * destruct (String.eqb _ "hmac-sha256").
        -- destruct (pbkdf2_Key_sha256 _ _ _ _); discriminate.
        -- intros H. injection H as <-. now apply in_errors_of_prf with kdf.
      * intros H. injection H as <-. now apply in_errors_of_kdf.
  - intros H. injection H as <-. apply in_errors_of_base. cbn. tauto.
Qed.

(** The panics of the key derivation: a KDF without parameters, or a
    panic inside the KDF. *)
Lemma decryptionKey_panics ks pass p :
  decryptionKey ks pass = Panic p ->
  exists kdf,
    keystoreV4.KDF ks = Some kdf /\
    ((ksKDF.Params kdf = None /\ p = NilDereference)
     \/ (ksKDF.Params kdf <> None /\ p = LibraryPanic)).
Proof.
  unfold decryptionKey, decode_or.
  destruct (keystoreV4.KDF ks) as [kdf|] eqn:Hk; [|discriminate].
  intros H. exists kdf. split; [reflexivity|]. revert H.
  destruct (ksKDF.Params kdf) as [kp|] eqn:Hp; cbn [deref bind].
  - destruct (hex_DecodeString (ksKDFParams.Salt kp)); cbn [bind];
      [|discriminate].
    destruct (String.eqb _ "scrypt").
    + destruct (scrypt_Key _ _ _ _ _ _) as [[k|]|]; try discriminate.
      intros H. injection H as <-. right. split; [discriminate | reflexivity].
    + destruct (String.eqb _ "pbkdf2"); [|discriminate].
      destruct (String.eqb _ "hmac-sha256"); [|discriminate].
      destruct (pbkdf2_Key_sha256 _ _ _ _); try discriminate.
      intros H. injection H as <-. right. split; [discriminate | reflexivity].
  - intros H. injection H as <-. left. split; reflexivity.
Qed.

(** The cipher dispatch under a key of at least 32 bytes, case by case. *)
Lemma decipher_cases cipher key cipherMsg :
  (32 <= List.length key)%nat ->
  decipher cipher key cipherMsg
  = if String.eqb (ksCipher.Function cipher) "aes-128-ctr" then
      match ksCipher.Params cipher with
      | None => Panic NilDereference
      | Some params =>
          match hex_DecodeString (ksCipherParams.IV params) with
          | None => Err InvalidIV
          | Some iv =>
              if (List.length iv =? BlockSize)%nat
              then Ok (ctr_decrypt (firstn 16 key) iv cipherMsg)
              else Panic IVLength
          end
      end
    else Err (UnsupportedCipher (ksCipher.Function cipher)).
Proof.
  intros H.
  destruct (String.eqb_spec (ksCipher.Function cipher) "aes-128-ctr") as [F|F].
  - now apply decipher_aes.
  - now apply decipher_unsupported.
Qed.

(** Every error of [decryptNorm] is among the errors of the record. *)
Lemma decryptNorm_errors ks pass e :
  decryptNorm ks pass = Err e -> In e (errors_of ks).
Proof.
  unfold decryptNorm, decode_or.
  destruct (decryptionKey ks pass) as [key| |] eqn:Hk; cbn [bind];
    [| intros H; injection H as <-; now apply decryptionKey_errors with pass
     | discriminate].
  destruct (Nat.ltb_spec (List.length key) 32) as [Hshort|Hlen].
  { intros H. injection H as <-. apply in_errors_of_base. cbn. tauto. }
  destruct (keystoreV4.Cipher ks) as [c|] eqn:Hc; cbn [deref bind];
    [|discriminate].
  destruct (hex_DecodeString (ksCipher.Message c)); cbn [bind].
  2: { intros H. injection H as <-. apply in_errors_of_base. cbn. tauto. }
  destruct (keystoreV4.Checksum ks) as [cs|]; cbn [deref bind];
    [|discriminate].
  destruct (hex_DecodeString (ksChecksum.Message cs)); cbn [bind].
  2: { intros H. injection H as <-. apply in_errors_of_base. cbn. tauto. }
  destruct (bytes_Equal _ _); cbn [negb].
  2: { intros H. injection H as <-. apply in_errors_of_base. cbn. tauto. }
  rewrite (decipher_cases c key _ Hlen).
  destruct (String.eqb _ _).
  - destruct (ksCipher.Params c) as [q|]; [|discriminate].
    destruct (hex_DecodeString (ksCipherParams.IV q)) as [iv|].
    + destruct (List.length iv =? BlockSize)%nat; discriminate.
    + intros H. injection H as <-. apply in_errors_of_base. cbn. tauto.
  - intros H. injection H as <-. now apply in_errors_of_cipher.
Qed.

(** X4: the errors and panics [decryptNorm] can produce on a record.  An
    error is one of the seven fixed ones or an Unsupported error carrying a
    function name or the PRF of the record itself; the key size error of
    [aes.NewCipher] never comes out, the AES key being 16 bytes by then; and
    a panic is a nil dereference, the IV length panic or a panic of the KDF
    library, never the "output smaller than input" panic of
    [XORKeyStream]. *)
Theorem decryptNorm_failures ks pass :
  (forall e, decryptNorm ks pass = Err e -> In e (errors_of ks))
  /\ (forall n, decryptNorm ks pass <> Err (AESKeySizeError n))
  /\ (forall p, decryptNorm ks pass = Panic p ->
               p = NilDereference \/ p = IVLength \/ p = LibraryPanic).
Proof.
  pose proof (decryptNorm_errors ks pass) as E.
  split; [exact E|]. split.
  - intros n H. apply E in H. unfold errors_of in H.
    repeat (apply in_app_or in H; destruct H as [H|H]).
    + cbn in H. repeat (destruct H as [H|H]; [discriminate H|]). exact H.
    + destruct (keystoreV4.KDF ks) as [kdf|]; [|exact H].
      destruct H as [H|H]; [discriminate H|].
      destruct (ksKDF.Params kdf); [|exact H].
      destruct H as [H|H]; [discriminate H | exact H].
    + destruct (keystoreV4.Cipher ks); [|exact H].
      destruct H as [H|H]; [discriminate H | exact H].
  - intros p. unfold decryptNorm, decode_or.
    destruct (decryptionKey ks pass) as [key| |p0] eqn:Hk; cbn [bind];
      [| discriminate |].
    + destruct (Nat.ltb_spec (List.length key) 32) as [Hshort|Hlen]; [discriminate|].
      destruct (keystoreV4.Cipher ks) as [c|]; cbn [deref bind];
        [| intros H; injection H as <-; now left].
      destruct (hex_DecodeString (ksCipher.Message c)); cbn [bind];
        [|discriminate].
      destruct (keystoreV4.Checksum ks) as [cs|]; cbn [deref bind];
        [| intros H; injection H as <-; now left].
      destruct (hex_DecodeString (ksChecksum.Message cs)); cbn [bind];
        [|discriminate].
      destruct (bytes_Equal _ _); cbn [negb]; [|discriminate].
      rewrite (decipher_cases c key _ Hlen).
      destruct (String.eqb _ _); [|discriminate].
      destruct (ksCipher.Params c) as [q|];
        [| intros H; injection H as <-; now left].
      destruct (hex_DecodeString (ksCipherParams.IV q)) as [iv|]; [|discriminate].
      destruct (List.length iv =? BlockSize)%nat; [discriminate|].
      intros H. injection H as <-. right. now left.
    + intros H. injection H as <-.
      destruct (decryptionKey_panics _ _ _ Hk) as (kdf & _ & [[_ ->] | [_ ->]]);
        [now left | right; now right].
Qed.

(** X5: with every pointer of the record set and an IV that, when it
    decodes, is 16 bytes long, the only panic left to [decryptNorm] and to
    [Decrypt] is one raised inside the KDF library; a record without [kdf]
    makes no such call and never panics. *)
Theorem no_panic_of_its_own ks :
  pointers_set ks = true ->
  iv_one_block ks = true ->
  (forall pass p,
      decryptNorm ks pass = Panic p ->
      p = LibraryPanic /\ keystoreV4.KDF ks <> None)
  /\ (forall data passphrase p,
        parses_to data ks ->
        Decrypt (Some data) passphrase = Panic p ->
        p = LibraryPanic /\ keystoreV4.KDF ks <> None).
Proof.
  intros HP HI.
  assert (A : forall pass p,
             decryptNorm ks pass = Panic p ->
             p = LibraryPanic /\ keystoreV4.KDF ks <> None).
  { intros pass p. unfold pointers_set in HP. unfold iv_one_block in HI.
    unfold decryptNorm, decode_or.
    destruct (decryptionKey ks pass) as [key| |p0] eqn:Hk; cbn [bind];
      [| discriminate |].
    - destruct (Nat.ltb_spec (List.length key) 32) as [Hshort|Hlen]; [discriminate|].
      destruct (keystoreV4.Cipher ks) as [c|];
        [| rewrite andb_false_r in HP; discriminate HP].
      cbn [deref bind].
      destruct (hex_DecodeString (ksCipher.Message c)); cbn [bind];
        [|discriminate].
      destruct (keystoreV4.Checksum ks) as [cs|];
        [| rewrite andb_false_r in HP; discriminate HP].
      cbn [deref bind].
      destruct (hex_DecodeString (ksChecksum.Message cs)); cbn [bind];
        [|discriminate].
      destruct (bytes_Equal _ _); cbn [negb]; [|discriminate].
      rewrite (decipher_cases c key _ Hlen).
      destruct (String.eqb _ _); [|discriminate].
      destruct (ksCipher.Params c) as [q|];
        [| rewrite andb_false_r in HP; discriminate HP].
      destruct (hex_DecodeString (ksCipherParams.IV q)) as [iv|]; [|discriminate].
      rewrite HI. discriminate.
    - intros H. injection H as <-.
      destruct (decryptionKey_panics _ _ _ Hk) as (kdf & Hkdf & [[Hn _] | [_ ->]]).
      + rewrite Hkdf, Hn in HP. discriminate HP.
      + split; [reflexivity | congruence]. }
  split; [exact A|].
  intros data passphrase p Hpar H.
  destruct (Decrypt_inv data passphrase)
    as [(e & He & _) | (ks' & Hp' & _ & _ & E)]; [congruence|].
  assert (ks' = ks) as ->.
  { destruct Hpar as (b & Hm & Hu), Hp' as (b' & Hm' & Hu'). congruence. }
  rewrite E in H.
  destruct (decryptNorm ks (bytes_of_string (normPassphrase passphrase)))
    as [r1|e1|p1] eqn:H1.
  - discriminate.
  - now apply A with (bytes_of_string (altNormPassphrase passphrase)).
  - injection H as <-.
    now apply A with (bytes_of_string (normPassphrase passphrase)).
Qed.

End Failures.

(** ** Bytes under xor, hex strings under case *)

Lemma byte_to_Z_range (b : byte) : 0 <= byte_to_Z b < 256.
Proof.
  unfold byte_to_Z. pose proof (Byte.to_N_bounded b) as H. lia.
Qed.

Lemma byte_of_to_Z (b : byte) : byte_of_Z (byte_to_Z b) = b.
Proof. destruct b; reflexivity. Qed.

Lemma byte_to_of_Z (z : Z) : byte_to_Z (byte_of_Z z) = z mod 256.
Proof.
  unfold byte_to_Z, byte_of_Z.
  pose proof (Z.mod_pos_bound z 256 eq_refl) as B.
  set (n := Z.to_N (z mod 256)).
  assert (Hn : (n < 256)%N) by (unfold n; lia).
  pose proof (byte_of_ascii_via_N (ascii_of_N n)) as E. symmetry in E.
  apply Byte.to_of_N in E. rewrite E, (N_ascii_embedding n Hn).
  unfold n. lia.
Qed.

Lemma lxor_mod_256 (a b : Z) :
  Z.lxor a b mod 256 = Z.lxor (a mod 256) (b mod 256).
Proof.
  change 256 with (2 ^ 8). apply Z.bits_inj'. intros n Hn.
  destruct (Z.ltb_spec n 8) as [L|G].
  - rewrite Z.mod_pow2_bits_low, !Z.lxor_spec, !Z.mod_pow2_bits_low by lia.
    reflexivity.
  - rewrite Z.mod_pow2_bits_high, Z.lxor_spec, !Z.mod_pow2_bits_high by lia.
    reflexivity.
Qed.

(** Xoring twice with the same byte gives the byte back. *)
Lemma byte_xor_involutive (a k : byte) : byte_xor (byte_xor a k) k = a.
Proof.
  unfold byte_xor. rewrite byte_to_of_Z, lxor_mod_256.
  rewrite !Z.mod_small by apply byte_to_Z_range.
  rewrite Z.lxor_assoc, Z.lxor_nilpotent, Z.lxor_0_r. apply byte_of_to_Z.
Qed.

Lemma xor_bytes_involutive (src ks : bytes) :
  (List.length src <= List.length ks)%nat ->
  xor_bytes (xor_bytes src ks) ks = src.
Proof.
  revert ks. induction src as [|x src IH]; intros [|k ks] H; cbn in *;
    try reflexivity; try lia.
  rewrite byte_xor_involutive, IH by lia. reflexivity.
Qed.

Lemma fromHexChar_upper (c : ascii) :
  fromHexChar (upper_ascii c) = fromHexChar c.
Proof.
  destruct c as [b0 b1 b2 b3 b4 b5 b6 b7].
  destruct b0, b1, b2, b3, b4, b5, b6, b7; reflexivity.
Qed.

(** Induction on strings two characters at a time. *)
Lemma string_pairs_ind (P : string -> Prop) :
  P EmptyString ->
  (forall c, P (String c EmptyString)) ->
  (forall p q rest, P rest -> P (String p (String q rest))) ->
  forall s, P s.
Proof.
  intros H0 H1 H2 s.
  assert (Q : P s /\ forall c, P (String c s)).
  { induction s as [|a s [IH1 IH2]]; [split; [exact H0 | exact H1]|].
    split; [apply IH2|]. intros c. now apply H2. }
  apply Q.
Qed.

(** The decoder reads upper-case digits as it reads lower-case ones. *)
Lemma hex_decode_upper (s : string) :
  hex_DecodeString (upper s) = hex_DecodeString s.
Proof.
  induction s as [| c | p q rest IH] using string_pairs_ind;
    [reflexivity | reflexivity |].
  cbn [upper hex_DecodeString]. rewrite !fromHexChar_upper, IH. reflexivity.
Qed.

(** A hex string has two characters for every byte it decodes to. *)
Lemma hex_decode_length (s : string) (b : bytes) :
  hex_DecodeString s = Some b -> String.length s = (2 * List.length b)%nat.
Proof.
  revert b. induction s as [| c | p q rest IH] using string_pairs_ind;
    intros b.
  - intros H. injection H as <-. reflexivity.
  - discriminate.
  - cbn [hex_DecodeString].
    destruct (fromHexChar p); [|discriminate].
    destruct (fromHexChar q); [|discriminate].
    destruct (hex_DecodeString rest) as [r|]; [|discriminate].
    intros H. injection H as <-. cbn [String.length List.length].
    rewrite (IH r eq_refl). lia.
Qed.

Section Decryption.

Context {prim : Primitives}.

(** Counter mode is its own inverse. *)
Lemma ctr_decrypt_involutive (key iv m : bytes) :
  ctr_decrypt key iv (ctr_decrypt key iv m) = m.
Proof.
  pose proof (ctr_decrypt_length key iv m) as L.
  unfold ctr_decrypt in *. rewrite L.
  apply xor_bytes_involutive. rewrite keystream_length. apply blocks_cover.
Qed.

(** X6: decryption undoes counter-mode encryption.  For a record with
    cipher "aes-128-ctr", a matching checksum and an IV of 16 bytes: when the
    ciphertext is the counter-mode encryption of a secret under the first 16
    bytes of the derived key and the IV, [decryptNorm] returns that secret;
    and whatever it returns encrypts back to the ciphertext. *)
Theorem decrypt_inverts_ctr ks pass key cipher cipherMsg checksumMsg params iv :
  at_checksum ks pass key cipher cipherMsg checksumMsg ->
  digest key cipherMsg = checksumMsg ->
  ksCipher.Function cipher = "aes-128-ctr"%string ->
  ksCipher.Params cipher = Some params ->
  hex_DecodeString (ksCipherParams.IV params) = Some iv ->
  List.length iv = 16%nat ->
  (forall secret,
      cipherMsg = ctr_decrypt (firstn 16 key) iv secret ->
      decryptNorm ks pass = Ok secret)
  /\ (forall res,
        decryptNorm ks pass = Ok res ->
        ctr_decrypt (firstn 16 key) iv res = cipherMsg).
Proof.
  intros Ha Hd F Hp Hiv L.
  assert (E : decryptNorm ks pass
              = Ok (ctr_decrypt (firstn 16 key) iv cipherMsg)).
  { rewrite (decryptNorm_at_checksum _ _ _ _ _ _ Ha).
    apply bytes_Equal_eq in Hd. rewrite Hd.
    rewrite (decipher_aes cipher key cipherMsg (proj1 (proj2 Ha)) F), Hp, Hiv, L.
    reflexivity. }
  split.
  - intros secret ->. rewrite E, ctr_decrypt_involutive. reflexivity.
  - intros res H. rewrite E in H. injection H as <-.
    apply ctr_decrypt_involutive.
Qed.

Lemma firstn_32_length (a b : bytes) :
  (32 <= List.length a)%nat -> firstn 32 a = firstn 32 b ->
  (32 <= List.length b)%nat.
Proof.
  intros H E. apply (f_equal (@List.length byte)) in E.
  rewrite !length_firstn in E. lia.
Qed.

Lemma slice_16_32_prefix (a b : bytes) :
  firstn 32 a = firstn 32 b -> slice 16 32 a = slice 16 32 b.
Proof.
  intros E. unfold slice. cbn [Nat.sub].
  rewrite !firstn_skipn_comm. cbn [Nat.add]. now rewrite E.
Qed.

Lemma firstn_16_prefix (a b : bytes) :
  firstn 32 a = firstn 32 b -> firstn 16 a = firstn 16 b.
Proof.
  intros E. apply (f_equal (firstn 16)) in E.
  rewrite !firstn_firstn in E. exact E.
Qed.

(** X7: only the first 32 bytes of the key are used.  For a record
    without [kdf], two passphrases of which one has at least 32 bytes and
    which agree on their first 32 bytes get the same result from
    [decryptNorm]: what follows the 32nd byte of a passphrase is ignored. *)
Theorem passphrase_tail_ignored ks pass1 pass2 :
  keystoreV4.KDF ks = None ->
  (32 <= List.length pass1)%nat ->
  firstn 32 pass1 = firstn 32 pass2 ->
  decryptNorm ks pass1 = decryptNorm ks pass2.
Proof.
  intros Hk L1 E.
  pose proof (firstn_32_length _ _ L1 E) as L2.
  unfold decryptNorm, decryptionKey. rewrite Hk. cbn [bind].
  destruct (Nat.ltb_spec (List.length pass1) 32) as [Hs1|_]; [lia|].
  destruct (Nat.ltb_spec (List.length pass2) 32) as [Hs2|_]; [lia|].
  rewrite (slice_16_32_prefix _ _ E).
  destruct (deref (keystoreV4.Cipher ks)) as [c| |]; cbn [bind];
    try reflexivity.
  destruct (decode_or InvalidCipherMessage (ksCipher.Message c)) as [m| |];
    cbn [bind]; try reflexivity.
  destruct (deref (keystoreV4.Checksum ks)) as [cs| |]; cbn [bind];
    try reflexivity.
  destruct (decode_or InvalidChecksumEncoding (ksChecksum.Message cs))
    as [sm| |]; cbn [bind]; try reflexivity.
  destruct (negb _); [reflexivity|].
  unfold decipher. rewrite (firstn_16_prefix _ _ E). reflexivity.
Qed.

(** X8: the fields that only inform are not read.  Changing the message of
    the KDF, the function name of the checksum or the parameters of the
    checksum leaves the result of [decryptNorm] as it is; in particular the
    digest is SHA-256 whatever function the checksum names. *)
Theorem informational_fields_ignored
    kdfMessage checksumFunction checksumParams ks pass :
  decryptNorm (relabel kdfMessage checksumFunction checksumParams ks) pass
  = decryptNorm ks pass.
Proof.
  destruct ks as [[kdf|] [cs|] c]; reflexivity.
Qed.

(** X9: hex digits are read in either case.  Writing the salt, the stored
    checksum, the ciphertext and the IV of a record in upper case leaves the
    result of [decryptNorm] as it is. *)
Theorem hex_case_ignored ks pass :
  decryptNorm (map_hex upper ks) pass = decryptNorm ks pass.
Proof.
  destruct ks as [kdf cs c].
  assert (K : decryptionKey (map_hex upper (keystoreV4.mk kdf cs c)) pass
              = decryptionKey (keystoreV4.mk kdf cs c) pass).
  { unfold decryptionKey, decode_or.
    destruct kdf as [[fn [[salt dklen n p r cc prf]|] msg]|];
      [|reflexivity|reflexivity].
    cbn [map_hex keystoreV4.KDF option_map ksKDF.Params ksKDF.Function
         ksKDFParams.Salt ksKDFParams.DKLen ksKDFParams.N ksKDFParams.P
         ksKDFParams.R ksKDFParams.C ksKDFParams.PRF deref bind].
    rewrite hex_decode_upper. reflexivity. }
  unfold decryptNorm. rewrite K.
  destruct (decryptionKey (keystoreV4.mk kdf cs c) pass) as [key| |];
    cbn [bind]; try reflexivity.
  destruct (List.length key <? 32)%nat; [reflexivity|].
  unfold decode_or, decipher.
  destruct c as [[fn q msg]|]; [|reflexivity].
  cbn [map_hex keystoreV4.Cipher keystoreV4.Checksum option_map
       ksCipher.Message ksCipher.Function ksCipher.Params deref bind].
  rewrite hex_decode_upper.
  destruct (hex_DecodeString msg) as [m|]; cbn [bind]; [|reflexivity].
  destruct cs as [[cfn cp cmsg]|]; [|reflexivity].
  cbn [option_map ksChecksum.Message deref bind].
  rewrite hex_decode_upper.
  destruct (hex_DecodeString cmsg) as [sm|]; cbn [bind]; [|reflexivity].
  destruct (negb _); [reflexivity|].
  destruct (String.eqb fn "aes-128-ctr"); [|reflexivity].
  destruct (aes_NewCipher (firstn 16 key)); cbn [bind]; try reflexivity.
  destruct q as [[iv]|]; [|reflexivity].
  cbn [option_map ksCipherParams.IV deref bind]. unfold decode_or.
  rewrite hex_decode_upper. reflexivity.
Qed.

(** X10: what a returned plaintext tells about the record.  When
    [decryptNorm] returns a plaintext, the cipher of the record is
    "aes-128-ctr", its IV is written in exactly 32 hex digits, and its
    ciphertext in exactly two hex digits for each byte of the plaintext. *)
Theorem plaintext_shape ks pass res :
  decryptNorm ks pass = Ok res ->
  exists cipher params,
    keystoreV4.Cipher ks = Some cipher /\
    ksCipher.Function cipher = "aes-128-ctr"%string /\
    ksCipher.Params cipher = Some params /\
    String.length (ksCipherParams.IV params) = 32%nat /\
    String.length (ksCipher.Message cipher) = (2 * List.length res)%nat.
Proof.
  intros H.
  destruct (decryptNorm_Ok_inv _ _ _ H)
    as (key & cipher & cipherMsg & checksumMsg & Ha & _ & Hres).
  destruct Ha as (_ & Hlen & Hc & Hm & _).
  rewrite (decipher_cases cipher key cipherMsg Hlen) in Hres.
  destruct (String.eqb_spec (ksCipher.Function cipher) "aes-128-ctr") as [F|F];
    [|discriminate].
  destruct (ksCipher.Params cipher) as [params|] eqn:Hp; [|discriminate].
  destruct (hex_DecodeString (ksCipherParams.IV params)) as [iv|] eqn:Hiv;
    [|discriminate].
  destruct (Nat.eqb_spec (List.length iv) BlockSize) as [L|L]; [|discriminate].
  injection Hres as <-.
  exists cipher, params. repeat (split; [first [assumption | reflexivity]|]).
  split.
  - rewrite (hex_decode_length _ _ Hiv), L. reflexivity.
  - rewrite (hex_decode_length _ _ Hm), ctr_decrypt_length. reflexivity.
Qed.

End Decryption.

Section Malformed.

Context {prim : Primitives}.

(** X11: failures of the key derivation that do not depend on the
    passphrase are the result of [Decrypt].  For a record whose [kdf] is
    present with its parameters: a salt that is not hexadecimal gives
    InvalidKDFSalt, whatever function and PRF the KDF names; and with
    function "scrypt", an error of [scrypt.Key] under every passphrase gives
    InvalidKDFParameters, the error of the library being dropped. *)
Theorem kdf_failures_surface ks kdf kp :
  keystoreV4.KDF ks = Some kdf ->
  ksKDF.Params kdf = Some kp ->
  (hex_DecodeString (ksKDFParams.Salt kp) = None ->
   (forall pass, decryptNorm ks pass = Err InvalidKDFSalt)
   /\ (forall data passphrase,
         parses_to data ks ->
         keystoreV4.Checksum ks <> None -> keystoreV4.Cipher ks <> None ->
         Decrypt (Some data) passphrase = Err InvalidKDFSalt))
  /\ (forall salt,
        hex_DecodeString (ksKDFParams.Salt kp) = Some salt ->
        ksKDF.Function kdf = "scrypt"%string ->
        (forall pass,
            scrypt_Key pass salt (ksKDFParams.N kp) (ksKDFParams.R kp)
              (ksKDFParams.P kp) (ksKDFParams.DKLen kp) = Returns None) ->
        (forall pass, decryptNorm ks pass = Err InvalidKDFParameters)
        /\ (forall data passphrase,
              parses_to data ks ->
              keystoreV4.Checksum ks <> None -> keystoreV4.Cipher ks <> None ->
              Decrypt (Some data) passphrase = Err InvalidKDFParameters)).
Proof.
  intros Hk Hp. split.
  - intros Hs.
    assert (E : forall pass, decryptNorm ks pass = Err InvalidKDFSalt).
    { intros pass. apply decryptNorm_key_error.
      unfold decryptionKey, decode_or. rewrite Hk, Hp. cbn [deref bind].
      rewrite Hs. reflexivity. }
    split; [exact E|]. intros data passphrase Hpar Hcs Hc.
    now apply Decrypt_both_fail with ks.
  - intros salt Hs F Hlib.
    assert (E : forall pass, decryptNorm ks pass = Err InvalidKDFParameters).
    { intros pass. apply decryptNorm_key_error.
      rewrite (decryptionKey_dispatch ks pass kdf kp salt Hk Hp Hs), F, Hlib.
      reflexivity. }
    split; [exact E|]. intros data passphrase Hpar Hcs Hc.
    now apply Decrypt_both_fail with ks.
Qed.

(** X12: malformed messages, in the order the code reads them.  With a key
    of at least 32 bytes derived, a ciphertext that is not hexadecimal gives
    InvalidCipherMessage whatever the checksum sub-record holds; a ciphertext
    that decodes and a stored checksum that is not hexadecimal give
    InvalidChecksumEncoding, whatever the cipher function and its
    parameters are. *)
Theorem malformed_messages ks pass key cipher :
  decryptionKey ks pass = Ok key ->
  (32 <= List.length key)%nat ->
  keystoreV4.Cipher ks = Some cipher ->
  (hex_DecodeString (ksCipher.Message cipher) = None ->
   decryptNorm ks pass = Err InvalidCipherMessage)
  /\ (forall cipherMsg cs,
        hex_DecodeString (ksCipher.Message cipher) = Some cipherMsg ->
        keystoreV4.Checksum ks = Some cs ->
        hex_DecodeString (ksChecksum.Message cs) = None ->
        decryptNorm ks pass = Err InvalidChecksumEncoding).
Proof.
  intros Hk Hlen Hc. unfold decryptNorm, decode_or. rewrite Hk. cbn [bind].
  destruct (Nat.ltb_spec (List.length key) 32) as [Hshort|_]; [lia|].
  rewrite Hc. cbn [deref bind]. split.
  - intros Hm. rewrite Hm. reflexivity.
  - intros cipherMsg cs Hm Hcs Hs. rewrite Hm. cbn [bind].
    rewrite Hcs. cbn [deref bind]. rewrite Hs. reflexivity.
Qed.

End Malformed.

(** ** The parser *)

Lemma decode_members_app {S : Type} (setf : string -> value -> S -> option S)
    (l1 l2 : object) (s : S) :
  decode_members setf (l1 ++ l2) s
  = match decode_members setf l1 s with
    | Some s' => decode_members setf l2 s'
    | None => None
    end.
Proof.
  revert s. induction l1 as [|[k v] l1 IH]; intros s; cbn [app decode_members];
    [reflexivity|].
  destruct (setf k v s); [apply IH | reflexivity].
Qed.



(** A member that names a sub-record and is neither null nor an object
    fails the decoding. *)
Lemma set_keystoreV4_mistyped (k : string) (v : value) (s : keystoreV4.t) :
  names k "kdf" = true \/ names k "checksum" = true \/ names k "cipher" = true ->
  v <> VNull -> (forall l, v <> VObj l) ->
  set_keystoreV4 k v s = None.
Proof.
  intros H N O. unfold set_keystoreV4, set_ptr. destruct s.
  destruct v; try congruence; try (now destruct (O l));
    destruct (names k "kdf"); try reflexivity;
    destruct (names k "checksum"); try reflexivity;
    destruct (names k "cipher"); try reflexivity;
    destruct H as [H | [H | H]]; discriminate H.
Qed.

Section Parser.

Context {prim : Primitives}.


(** X14: a sub-record of the wrong JSON type is a malformed record.  A
    top-level member named "kdf", "checksum" or "cipher" (in any ASCII case)
    whose value is neither null nor an object makes [Decrypt] return
    MalformedRecord, whatever else the record holds. *)
Theorem mistyped_member_malformed l1 l2 k v passphrase :
  names k "kdf" = true \/ names k "checksum" = true \/ names k "cipher" = true ->
  v <> VNull ->
  (forall l, v <> VObj l) ->
  Decrypt (Some (l1 ++ (k, v) :: l2)) passphrase = Err MalformedRecord.
Proof.
  intros H N O. unfold Decrypt, json_Marshal.
  destruct (marshalable (VObj (l1 ++ (k, v) :: l2))); [|reflexivity].
  unfold json_Unmarshal. rewrite decode_members_app.
  destruct (decode_members set_keystoreV4 l1 keystoreV4.zero) as [s|];
    [|reflexivity].
  cbn [decode_members]. now rewrite set_keystoreV4_mistyped.
Qed.

End Parser.

(** ** The constructor *)

Lemma apply_all_app (opts1 opts2 : list Option.t) (opt : options.t) :
  apply_all (opts1 ++ opts2) opt
  = match apply_all opts1 opt with
    | Returns opt' => apply_all opts2 opt'
    | Panics => Panics
    end.
Proof.
  revert opt. induction opts1 as [|op opts1 IH]; intros opt;
    cbn [app apply_all]; [reflexivity|].
  destruct (Option.apply op opt); [apply IH | reflexivity].
Qed.

(** X15: the options of [NewCryptor].  Without options the cryptor has
    cipher "pbkdf2" and cost 2^18.  An option given last overrides what came
    before for its own setting and leaves the other one: [WithCipher] sets
    the cipher and keeps the cost, an option made by [WithCost] sets the cost
    and keeps the cipher.  [WithCost] panics on a nil test, and a nil option
    anywhere in the list makes [NewCryptor] panic. *)
Theorem NewCryptor_options :
  NewCryptor [] = Returns (Cryptor.mk "pbkdf2" 262144)
  /\ (forall opts c,
        NewCryptor (opts ++ [WithCipher c])
        = match NewCryptor opts with
          | Returns cr => Returns (Cryptor.mk c (Cryptor.cost cr))
          | Panics => Panics
          end)
  /\ (forall opts t power o,
        WithCost t power = Returns o ->
        NewCryptor (opts ++ [o])
        = match NewCryptor opts with
          | Returns cr =>
              Returns (Cryptor.mk (Cryptor.cipher cr) (wrap_int (Z.shiftl 1 power)))
          | Panics => Panics
          end)
  /\ (forall power, WithCost None power = Panics)
  /\ (forall opts1 opts2, NewCryptor (opts1 ++ Option.nil :: opts2) = Panics).
Proof.
  split; [reflexivity|]. split; [|split; [|split; [reflexivity|]]].
  - intros opts c. unfold NewCryptor. rewrite apply_all_app.
    destruct (apply_all opts _); reflexivity.
  - intros opts [t|] power o H; [|discriminate]. injection H as <-.
    unfold NewCryptor. rewrite apply_all_app.
    destruct (apply_all opts _); reflexivity.
  - intros opts1 opts2. unfold NewCryptor. rewrite apply_all_app.
    destruct (apply_all opts1 _); reflexivity.
Qed.

Lemma wrap_int_pow2 (power : Z) :
  0 <= power < 2 ^ 64 ->
  wrap_int (Z.shiftl 1 power)
  = if power <? 63 then 2 ^ power
    else if power =? 63 then - 2 ^ 63
    else 0.
Proof.
  intros [H0 _]. rewrite Z.shiftl_1_l. unfold wrap_int.
  destruct (Z.ltb_spec power 63) as [L|G].
  - assert (B : 0 < 2 ^ power < 2 ^ 63).
    { split; [apply Z.pow_pos_nonneg; lia|].
      apply Z.pow_lt_mono_r; lia. }
    rewrite Z.mod_small by lia. lia.
  - destruct (Z.eqb_spec power 63) as [->|N]; [reflexivity|].
    replace power with (power - 64 + 64) by lia.
    rewrite Z.pow_add_r by lia.
    rewrite Z.add_comm, Z.mod_add by lia. reflexivity.
Qed.

(** X16: the cost of a cryptor made with [WithCost].  For a power that fits
    a [uint], the cost is 2^power as long as the power is below 63; it is
    -2^63 for 63 and 0 for every power from 64 on. *)
Theorem NewCryptor_cost (t : testing_T) (power : Z) :
  0 <= power < 2 ^ 64 ->
  exists o,
    WithCost (Some t) power = Returns o /\
    NewCryptor [o]
    = Returns (Cryptor.mk "pbkdf2"
                 (if power <? 63 then 2 ^ power
                  else if power =? 63 then - 2 ^ 63
                  else 0)).
Proof.
  intros H. eexists. split; [reflexivity|].
  unfold NewCryptor. cbn [apply_all Option.apply options.cipher options.costPower].
  now rewrite wrap_int_pow2.
Qed.

(** ** Diagnosing a failure *)

Lemma parses_to_unique data ks1 ks2 :
  parses_to data ks1 -> parses_to data ks2 -> ks1 = ks2.
Proof. intros (b1 & M1 & U1) (b2 & M2 & U2). congruence. Qed.

Section Diagnosis.

Context {prim : Primitives}.

(** The errors of a record are not the structural ones. *)
Lemma errors_of_not_structural ks e :
  In e (errors_of ks) ->
  e <> NoData /\ e <> MalformedRecord /\ e <> MissingChecksum /\ e <> MissingCipher.
Proof.
  intros H. unfold errors_of in H.
  repeat (apply in_app_or in H; destruct H as [H|H]).
  - cbn in H.
    repeat (destruct H as [H|H]; [subst e; repeat split; discriminate|]).
    contradiction.
  - destruct (keystoreV4.KDF ks) as [kdf|]; [|contradiction].
    destruct H as [H|H]; [subst e; repeat split; discriminate|].
    destruct (ksKDF.Params kdf); [|contradiction].
    destruct H as [H|H]; [subst e; repeat split; discriminate | contradiction].
  - destruct (keystoreV4.Cipher ks); [|contradiction].
    destruct H as [H|H]; [subst e; repeat split; discriminate | contradiction].
Qed.

(** The four ways [Decrypt] goes on a map that is not nil. *)
Lemma Decrypt_structure data passphrase :
  ((forall ks, ~ parses_to data ks)
   /\ Decrypt (Some data) passphrase = Err MalformedRecord)
  \/ (exists ks, parses_to data ks /\ keystoreV4.Checksum ks = None
                 /\ Decrypt (Some data) passphrase = Err MissingChecksum)
  \/ (exists ks, parses_to data ks /\ keystoreV4.Checksum ks <> None
                 /\ keystoreV4.Cipher ks = None
                 /\ Decrypt (Some data) passphrase = Err MissingCipher)
  \/ (exists ks, parses_to data ks /\ keystoreV4.Checksum ks <> None
                 /\ keystoreV4.Cipher ks <> None
                 /\ forall e, Decrypt (Some data) passphrase = Err e ->
                              In e (errors_of ks)).
Proof.
  unfold Decrypt, parses_to.
  destruct (json_Marshal data) as [b|] eqn:Hm.
  2: { left. split; [|reflexivity]. intros ks (b & Hb & _). discriminate. }
  destruct (json_Unmarshal b) as [ks|] eqn:Hu.
  2: { left. split; [|reflexivity]. intros ks (b' & Hb & Hu'). congruence. }
  assert (P : exists b0, Some b = Some b0 /\ json_Unmarshal b0 = Some ks)
    by (exists b; split; [reflexivity | exact Hu]).
  destruct (keystoreV4.Checksum ks) as [cs|] eqn:Hcs.
  2: { right. left. exists ks. now repeat split. }
  destruct (keystoreV4.Cipher ks) as [c|] eqn:Hc.
  2: { right. right. left. exists ks. rewrite Hcs.
       repeat split; try assumption; try reflexivity. discriminate. }
  right. right. right. exists ks. rewrite Hcs, Hc.
  split; [exact P|]. split; [discriminate|]. split; [discriminate|].
  intros e.
  destruct (decryptNorm ks (bytes_of_string (normPassphrase passphrase)))
    as [r1|e1|p1]; [discriminate | | discriminate].
  destruct (decryptNorm ks (bytes_of_string (altNormPassphrase passphrase)))
    as [r2|e2|p2] eqn:H2; [discriminate | | discriminate].
  intros H. injection H as <-. now apply decryptNorm_errors in H2.
Qed.

(** X19: a structural error tells what is wrong with the input.  [Decrypt]
    returns NoData only for the nil map, MalformedRecord only for a record
    that does not encode and decode into a keystore, MissingChecksum only for
    a keystore without checksum, and MissingCipher only for a keystore with a
    checksum and without cipher; none of them comes out of the pipeline. *)
Theorem structural_errors_exact :
  (forall data passphrase,
      Decrypt data passphrase = Err NoData <-> data = None)
  /\ (forall data passphrase,
        Decrypt (Some data) passphrase = Err MalformedRecord <->
        forall ks, ~ parses_to data ks)
  /\ (forall data passphrase,
        Decrypt (Some data) passphrase = Err MissingChecksum <->
        exists ks, parses_to data ks /\ keystoreV4.Checksum ks = None)
  /\ (forall data passphrase,
        Decrypt (Some data) passphrase = Err MissingCipher <->
        exists ks, parses_to data ks /\ keystoreV4.Checksum ks <> None
                   /\ keystoreV4.Cipher ks = None).
Proof.
  split; [|split; [|split]].
  - intros [data|] passphrase; [|split; reflexivity].
    split; [|discriminate]. intros H.
    destruct (Decrypt_structure data passphrase)
      as [[_ E] | [(ks & _ & _ & E) | [(ks & _ & _ & _ & E)
                                      | (ks & _ & _ & _ & E)]]];
      try congruence.
    apply E, errors_of_not_structural in H. now destruct H as (H & _).
  - intros data passphrase.
    destruct (Decrypt_structure data passphrase)
      as [[N E] | [(ks & P & _ & E) | [(ks & P & _ & _ & E)
                                      | (ks & P & _ & _ & E)]]].
    + split; [intros _; exact N | intros _; exact E].
    + split; [congruence | intros N; now destruct (N ks)].
    + split; [congruence | intros N; now destruct (N ks)].
    + split; [|intros N; now destruct (N ks)].
      intros H. apply E, errors_of_not_structural in H. now destruct H as (_ & H & _).
  - intros data passphrase.
    destruct (Decrypt_structure data passphrase)
      as [[N E] | [(ks & P & C & E) | [(ks & P & C & _ & E)
                                      | (ks & P & C & _ & E)]]].
    + split; [congruence | intros (ks & P & _); now destruct (N ks)].
    + split; [intros _; now exists ks | intros _; exact E].
    + split; [congruence|]. intros (ks' & P' & C').
      rewrite (parses_to_unique _ _ _ P' P) in C'. contradiction.
    + split; [| intros (ks' & P' & C');
                rewrite (parses_to_unique _ _ _ P' P) in C'; contradiction].
      intros H. apply E, errors_of_not_structural in H.
      now destruct H as (_ & _ & H & _).
  - intros data passphrase.
    destruct (Decrypt_structure data passphrase)
      as [[N E] | [(ks & P & C & E) | [(ks & P & C & D & E)
                                      | (ks & P & C & D & E)]]].
    + split; [congruence | intros (ks & P & _); now destruct (N ks)].
    + split; [congruence|]. intros (ks' & P' & C' & _).
      rewrite (parses_to_unique _ _ _ P' P) in C'. contradiction.
    + split; [intros _; now exists ks | intros _; exact E].
    + split; [| intros (ks' & P' & _ & D');
                rewrite (parses_to_unique _ _ _ P' P) in D'; contradiction].
      intros H. apply E, errors_of_not_structural in H.
      now destruct H as (_ & _ & _ & H).
Qed.

(** X17: a derived-key length below 32 cannot be decrypted.  When the two
    key derivation functions return keys of the length they are asked for,
    a record whose [kdf] asks for fewer than 32 bytes gets DerivedKeyTooShort
    whenever a key is derived, and never a plaintext, from [decryptNorm] or
    from [Decrypt]. *)
Theorem short_dklen_never_decrypts ks kdf kp :
  keystoreV4.KDF ks = Some kdf ->
  ksKDF.Params kdf = Some kp ->
  ksKDFParams.DKLen kp < 32 ->
  (forall pass salt n r p dklen key,
      scrypt_Key pass salt n r p dklen = Returns (Some key) ->
      List.length key = Z.to_nat dklen) ->
  (forall pass salt c dklen key,
      pbkdf2_Key_sha256 pass salt c dklen = Returns key ->
      List.length key = Z.to_nat dklen) ->
  (forall pass key,
      decryptionKey ks pass = Ok key ->
      decryptNorm ks pass = Err DerivedKeyTooShort)
  /\ (forall pass res, decryptNorm ks pass <> Ok res)
  /\ (forall data passphrase res,
        parses_to data ks -> Decrypt (Some data) passphrase <> Ok res).
Proof.
  intros Hk Hp Hd Hs Hb.
  assert (L : forall pass key,
             decryptionKey ks pass = Ok key -> (List.length key < 32)%nat).
  { intros pass key. unfold decryptionKey, decode_or. rewrite Hk, Hp.
    cbn [deref bind].
    destruct (hex_DecodeString (ksKDFParams.Salt kp)) as [salt|]; cbn [bind];
      [|discriminate].
    destruct (String.eqb _ "scrypt").
    - destruct (scrypt_Key _ _ _ _ _ _) as [[k|]|] eqn:E; try discriminate.
      intros H. injection H as <-. rewrite (Hs _ _ _ _ _ _ _ E). lia.
    - destruct (String.eqb _ "pbkdf2"); [|discriminate].
      destruct (String.eqb _ "hmac-sha256"); [|discriminate].
      destruct (pbkdf2_Key_sha256 _ _ _ _) as [k|] eqn:E; try discriminate.
      intros H. injection H as <-. rewrite (Hb _ _ _ _ _ E). lia. }
  assert (A : forall pass key,
             decryptionKey ks pass = Ok key ->
             decryptNorm ks pass = Err DerivedKeyTooShort).
  { intros pass key H. apply decryptNorm_short_key with key; [exact H|].
    now apply L with pass. }
  assert (B : forall pass res, decryptNorm ks pass <> Ok res).
  { intros pass res H.
    destruct (decryptNorm_Ok_inv _ _ _ H)
      as (key & c & m & sm & (Hkey & Hlen & _) & _).
    apply L in Hkey. lia. }
  split; [exact A|]. split; [exact B|].
  intros data passphrase res P H.
  destruct (Decrypt_Ok_inv _ _ _ H) as (ks' & P' & [H1|H2]);
    rewrite (parses_to_unique _ _ _ P' P) in *; now apply B in H1 || now apply B in H2.
Qed.

End Diagnosis.

(** ** Which strings decode *)

Lemma fromHexChar_occurs (c : ascii) :
  occurs c hex_digits = match fromHexChar c with Some _ => true | None => false end.
Proof.
  destruct c as [b0 b1 b2 b3 b4 b5 b6 b7].
  destruct b0, b1, b2, b3, b4, b5, b6, b7; reflexivity.
Qed.

(** X18: the hex fields that decode.  [hex.DecodeString] returns bytes
    exactly for the strings of even length made of the digits 0-9, a-f and
    A-F; any other salt, IV, ciphertext or stored checksum is an error, never
    a shorter result. *)
Theorem hex_decodes_iff (s : string) :
  (exists b, hex_DecodeString s = Some b) <->
  Nat.even (String.length s) = true /\ all_hex s = true.
Proof.
  induction s as [| c | p q rest IH] using string_pairs_ind.
  - split; [intros _; split; reflexivity | intros _; now exists []].
  - split; [intros [b H]; discriminate H | intros [H _]; discriminate H].
  - cbn [hex_DecodeString String.length all_hex].
    rewrite !fromHexChar_occurs.
    change (Nat.even (S (S (String.length rest))))
      with (Nat.even (String.length rest)).
    destruct (fromHexChar p) as [a|]; cbn [andb].
    2: { split; [intros [b H]; discriminate H | intros [_ H]; discriminate H]. }
    destruct (fromHexChar q) as [a'|]; cbn [andb].
    2: { split; [intros [b H]; discriminate H | intros [_ H]; discriminate H]. }
    destruct (hex_DecodeString rest) as [r|].
    + split; [intros _; apply IH; now exists r | intros _; eexists; reflexivity].
    + split; [intros [b H]; discriminate H|].
      intros H. apply IH in H as [r H]. discriminate H.
Qed.

(** * The further properties on sample records *)

(** The sample key derivation functions return keys of the length asked
    for. *)
Lemma sample_scrypt_length pass salt n r p dklen key :
  @scrypt_Key sample_primitives pass salt n r p dklen = Returns (Some key) ->
  List.length key = Z.to_nat dklen.
Proof.
  cbn. destruct (p =? 0); [discriminate|]. destruct (n <=? 1); [discriminate|].
  intros H. injection H as <-. apply be_bytes_length.
Qed.

Lemma sample_pbkdf2_length pass salt c dklen key :
  @pbkdf2_Key_sha256 sample_primitives pass salt c dklen = Returns key ->
  List.length key = Z.to_nat dklen.
Proof.
  cbn. destruct (dklen <? 0); [discriminate|].
  intros H. injection H as <-. apply be_bytes_length.
Qed.

(** X2 on a sample: a passphrase without control characters, which both
    sample normalisations leave as it is. *)
Lemma Decrypt_normalisations_agree_witness :
  @Decrypt sample_primitives (Some (data_sealed "aes-128-ctr" (params_iv iv16)))
    pass32
  = @decryptNorm sample_primitives ks_sealed
      (bytes_of_string (@normPassphrase sample_primitives pass32)).
Proof.
  exact (@Decrypt_normalisations_agree sample_primitives
           (data_sealed "aes-128-ctr" (params_iv iv16)) pass32 ks_sealed
           ltac:(parsed) ltac:(run) ltac:(run) ltac:(run)).
Defined.

(** X3 on a sample: the sealed record under another passphrase of 32
    characters. *)
Lemma wrong_passphrase_mismatch_witness :
  @Decrypt sample_primitives (Some (data_sealed "aes-128-ctr" (params_iv iv16)))
    "ABCDEFGHIJKLMNOPQRSTUVWXYZabcdef"
  = Err ChecksumMismatch.
Proof.
  exact (@wrong_passphrase_mismatch sample_primitives
           (data_sealed "aes-128-ctr" (params_iv iv16))
           "ABCDEFGHIJKLMNOPQRSTUVWXYZabcdef" ks_sealed
           (bytes_of_string "ABCDEFGHIJKLMNOPQRSTUVWXYZabcdef")
           (bytes_of_string "ABCDEFGHIJKLMNOPQRSTUVWXYZabcdef")
           (cipher_of ks_sealed) deadbeef checksum_sealed
           ltac:(parsed) ltac:(staged) ltac:(staged)
           (differs (bytes_of_string "ABCDEFGHIJKLMNOPQRSTUVWXYZabcdef")
              deadbeef checksum_sealed sample_primitives ltac:(run))
           (differs (bytes_of_string "ABCDEFGHIJKLMNOPQRSTUVWXYZabcdef")
              deadbeef checksum_sealed sample_primitives ltac:(run))).
Defined.

(** X5 on a sample: the sealed record has its pointers set, a 16-byte IV
    and no KDF, so no run on it panics. *)
Lemma no_panic_of_its_own_witness :
  pointers_set ks_sealed = true
  /\ iv_one_block ks_sealed = true
  /\ (forall pass p,
        @decryptNorm sample_primitives ks_sealed pass = Panic p ->
        p = LibraryPanic /\ keystoreV4.KDF ks_sealed <> None).
Proof.
  split; [run|]. split; [run|].
  exact (proj1 (@no_panic_of_its_own sample_primitives ks_sealed
                  ltac:(run) ltac:(run))).
Defined.

(** X6 on a sample: the ciphertext deadbeef is the encryption of the four
    bytes the sealed record decrypts to. *)
Lemma decrypt_inverts_ctr_witness :
  @decryptNorm sample_primitives ks_sealed (bytes_of_string pass32)
  = Ok [Byte.xee; Byte.x9d; Byte.x8e; Byte.xdf].
Proof.
  exact (proj1 (@decrypt_inverts_ctr sample_primitives ks_sealed
                  (bytes_of_string pass32) (bytes_of_string pass32)
                  (cipher_of ks_sealed) deadbeef checksum_sealed
                  (ksCipherParams.mk iv16)
                  (be_bytes 16 0x000102030405060708090a0b0c0d0e0f)
                  ltac:(staged) ltac:(run) ltac:(run) ltac:(run) ltac:(run)
                  ltac:(run))
           [Byte.xee; Byte.x9d; Byte.x8e; Byte.xdf] ltac:(run)).
Defined.

(** X7 on a sample: the passphrase of the sealed record with four more
    characters after it. *)
Lemma passphrase_tail_ignored_witness :
  @decryptNorm sample_primitives ks_sealed (bytes_of_string pass32)
  = @decryptNorm sample_primitives ks_sealed
      (bytes_of_string (String.append pass32 "tail")).
Proof.
  exact (@passphrase_tail_ignored sample_primitives ks_sealed
           (bytes_of_string pass32)
           (bytes_of_string (String.append pass32 "tail"))
           ltac:(run) ltac:(run) ltac:(run)).
Defined.

(** X10 on a sample: the sealed record, which returns four bytes, has an
    IV of 32 digits and a ciphertext of 8. *)
Lemma plaintext_shape_witness :
  exists cipher params,
    keystoreV4.Cipher ks_sealed = Some cipher /\
    ksCipher.Function cipher = "aes-128-ctr"%string /\
    ksCipher.Params cipher = Some params /\
    String.length (ksCipherParams.IV params) = 32%nat /\
    String.length (ksCipher.Message cipher)
    = (2 * List.length [Byte.xee; Byte.x9d; Byte.x8e; Byte.xdf])%nat.
Proof.
  exact (@plaintext_shape sample_primitives ks_sealed (bytes_of_string pass32)
           [Byte.xee; Byte.x9d; Byte.x8e; Byte.xdf] ltac:(run)).
Defined.

(** X11 on a sample: a scrypt record whose salt is "zz". *)
Lemma kdf_failures_surface_witness :
  @Decrypt sample_primitives (Some (data_kdf "scrypt" "zz" "")) pass32
  = Err InvalidKDFSalt.
Proof.
  exact (proj2 (proj1 (@kdf_failures_surface sample_primitives
                         (ks_of (data_kdf "scrypt" "zz" ""))
                         (ksKDF.mk "scrypt"
                            (Some (ksKDFParams.mk "zz" 32 0 0 0 262144 "")) "")
                         (ksKDFParams.mk "zz" 32 0 0 0 262144 "")
                         ltac:(run) ltac:(run))
                  ltac:(run))
           (data_kdf "scrypt" "zz" "") pass32
           ltac:(parsed) ltac:(run) ltac:(run)).
Defined.

(** X12 on a sample: a record whose ciphertext and stored checksum are
    both not hexadecimal reports the ciphertext. *)
Lemma malformed_messages_witness :
  @decryptNorm sample_primitives
    (ks_of [member_checksum "zz";
            member_cipher "aes-128-ctr" (params_iv iv16) "xyz"])
    (bytes_of_string pass32)
  = Err InvalidCipherMessage.
Proof.
  exact (proj1 (@malformed_messages sample_primitives
                  (ks_of [member_checksum "zz";
                          member_cipher "aes-128-ctr" (params_iv iv16) "xyz"])
                  (bytes_of_string pass32) (bytes_of_string pass32)
                  (ksCipher.mk "aes-128-ctr" (Some (ksCipherParams.mk iv16)) "xyz")
                  ltac:(run) ltac:(run) ltac:(run))
           ltac:(run)).
Defined.


(** X14 on a sample: a record whose "KDF" member is a string. *)
Lemma mistyped_member_malformed_witness :
  @Decrypt sample_primitives
    (Some ([] ++ ("KDF"%string, VStr "scrypt")
              :: data_sealed "aes-128-ctr" (params_iv iv16))) pass32
  = Err MalformedRecord.
Proof.
  exact (@mistyped_member_malformed sample_primitives []
           (data_sealed "aes-128-ctr" (params_iv iv16)) "KDF" (VStr "scrypt")
           pass32 ltac:(left; run) ltac:(discriminate)
           ltac:(intros l; discriminate)).
Defined.

(** X16 on a sample: the default power, 18. *)
Lemma NewCryptor_cost_witness :
  exists o,
    WithCost (Some a_test) 18 = Returns o /\
    NewCryptor [o] = Returns (Cryptor.mk "pbkdf2" (2 ^ 18)).
Proof.
  exact (NewCryptor_cost a_test 18 ltac:(lia)).
Defined.

(** X17 on a sample: a pbkdf2 record that asks for 16 bytes. *)
Lemma short_dklen_never_decrypts_witness :
  @decryptNorm sample_primitives
    (keystoreV4.mk
       (Some (ksKDF.mk "pbkdf2"
                (Some (ksKDFParams.mk "00" 16 0 0 0 1 "hmac-sha256")) ""))
       None None) []
  = Err DerivedKeyTooShort.
Proof.
  exact (proj1 (@short_dklen_never_decrypts sample_primitives
                  (keystoreV4.mk
                     (Some (ksKDF.mk "pbkdf2"
                              (Some (ksKDFParams.mk "00" 16 0 0 0 1 "hmac-sha256"))
                              ""))
                     None None)
                  (ksKDF.mk "pbkdf2"
                     (Some (ksKDFParams.mk "00" 16 0 0 0 1 "hmac-sha256")) "")
                  (ksKDFParams.mk "00" 16 0 0 0 1 "hmac-sha256")
                  eq_refl eq_refl ltac:(run)
                  sample_scrypt_length sample_pbkdf2_length)
           [] (be_bytes 16 1) ltac:(run)).
Defined.
